(** * tidal-rpc: the track-change pipeline of [WinMain.cpp]

    A shallow embedding of [parseTrack], [UploadCoverArtAsync],
    [updatePresence], [clearPresence], [ws2s], [BufferToVector] and the
    [ParsingGuard] scope guard, together with the properties of one
    pipeline run: the entry guard, the duplicate check, the forced path,
    the error paths and the clean-up of the scratch file.

    The program is a C++/WinRT coroutine over process-wide globals.  It is
    modelled as a state monad over the globals and the relevant part of the
    outside world (submitted rich presence, files of the temporary
    directory), with three outcomes per statement: normal completion,
    [co_return], and a thrown [winrt::hresult_error].  Every answer of the
    operating system is read from an oracle record, so that no behaviour of
    Windows is assumed beyond what the source itself relies on.

    A run is followed from its call to its [co_return].  Where it awaits
    an operation of the system it is suspended and the rest of the program
    goes on; what the rest of the program does to the globals then is a
    parameter of the run.  [parseTrack] is the run on its own: nothing
    happens while it is suspended. *)

From stdpp Require Import gmap strings list pretty.

Open Scope Z_scope.

(* ===================================================================== *)
(** ** Text *)
(* ===================================================================== *)

(** [std::wstring], [std::wstring_view] and [winrt::hstring] are sequences
    of UTF-16 code units; [std::string] is Rocq's [string]. *)
Abbreviation wchar_t := N (only parsing).
Abbreviation wstring := (list N) (only parsing).
Abbreviation hstring := (list N) (only parsing).
Abbreviation byte := Byte.byte (only parsing).

(** A wide literal [L"..."] whose characters are all ASCII. *)
Definition L (s : string) : wstring :=
  map Ascii.N_of_ascii (String.list_ascii_of_string s).

(** [h.c_str()] handed to a [std::wstring] constructor or assignment, or to
    an API that takes a C string: the code units before the first NUL. *)
Fixpoint c_str (w : wstring) : wstring :=
  match w with
  | [] => []
  | c :: w' => if bool_decide (c = 0%N) then [] else c :: c_str w'
  end.

(** [needle] starts [hay]. *)
Fixpoint starts_with (needle hay : wstring) : bool :=
  match needle, hay with
  | [], _ => true
  | _ :: _, [] => false
  | a :: needle', b :: hay' => bool_decide (a = b) && starts_with needle' hay'
  end.

(** [hay.find(needle)] of [std::wstring_view]: the first position at which
    [needle] occurs; [None] is [npos]. *)
Fixpoint find_from (pos : nat) (needle hay : wstring) : option nat :=
  if starts_with needle hay then Some pos
  else match hay with
       | [] => None
       | _ :: hay' => find_from (S pos) needle hay'
       end.

Definition find (hay needle : wstring) : option nat := find_from 0 needle hay.

Definition npos : option nat := None.

(** [std::to_wstring] and [std::to_string] of an integer. *)
Definition to_string (n : Z) : string := pretty n.
Definition to_wstring (n : Z) : wstring := L (pretty n).

(** [needle] occurs somewhere in [hay]. *)
Definition contains (hay needle : wstring) : Prop :=
  exists before after, hay = before ++ needle ++ after.

(* ===================================================================== *)
(** ** Data of the program *)
(* ===================================================================== *)

(** [struct trackInfo]. *)
Record trackInfo := mkTrack {
  title : wstring;
  artist : wstring;
  album : wstring;
  coverArtUrl : wstring
}.

(** The value-initialised [trackInfo] written by [g_lastTrackProcessed = {}]. *)
Definition no_track : trackInfo := mkTrack [] [] [] [].

Definition with_coverArtUrl (t : trackInfo) (url : wstring) : trackInfo :=
  mkTrack (title t) (artist t) (album t) url.

(** [winrt::hresult_error]: the HRESULT and its message. *)
Record hresult_error := mkError {
  code : Z;
  message : hstring
}.

(** The result of a WinRT call that reports failure by throwing. *)
Abbreviation hresult A := (hresult_error + A)%type (only parsing).

(** [IRandomAccessStreamReference]: what [OpenReadAsync] yields, a null
    stream or the bytes of the stream. *)
Record StreamReference := mkStreamReference {
  OpenReadAsync : hresult (option (list byte))
}.

(** [GlobalSystemMediaTransportControlsSessionMediaProperties]. *)
Record MediaProperties := mkMediaProperties {
  Title : hstring;
  Artist : hstring;
  AlbumTitle : hstring;
  Thumbnail : option StreamReference
}.

(** [GlobalSystemMediaTransportControlsSession]. *)
Record Session := mkSession {
  SourceAppUserModelId : hresult hstring;
  TryGetMediaPropertiesAsync : hresult MediaProperties
}.

(** [discordpp::ActivityAssets] and [discordpp::Activity], with the fields
    [updatePresence] sets. *)
Record ActivityAssets := mkAssets {
  LargeImage : option string;
  LargeText : option string;
  SmallImage : option string;
  SmallText : option string;
  SmallUrl : option string
}.

Inductive ActivityTypes := Playing | Streaming | Listening | Watching.

Record Activity := mkActivity {
  Type_ : ActivityTypes;
  Name : string;
  Details : string;
  State_ : string;
  Assets : ActivityAssets
}.

(** What one run does that can be observed from outside, in program order. *)
Inductive event :=
| cout (line : string)
| cerr (line : string)
| isParsing_write (b : bool)          (* ParsingGuard writes g_isParsing *)
| UpdateRichPresence (a : Activity)
| ClearRichPresence
| GetTempPathW_call
| ofstream_open (path : wstring) (ok : bool)
| CreatePipe_call
| SetHandleInformation_call
| CreateProcessW_call (command : wstring)
| DeleteFileW_call (path : wstring).

(** The globals of the program and the part of the world a run changes. *)
Record State := mkState {
  g_isParsing : bool;
  g_lastTrackProcessed : trackInfo;
  g_currentSession : option Session;
  richPresence : option Activity;        (* last presence handed to the client *)
  files : gmap (list N) (list Byte.byte) (* files of the temporary directory *)
}.

(** The answers of the operating system during one run. *)
Record OS := mkOS {
  (* CP_UTF8 conversions of a non-empty text *)
  WideCharToMultiByte : wstring -> string;
  MultiByteToWideChar : string -> wstring;
  (* thumbnail plumbing *)
  CopyAsync : list byte -> hresult (list byte);
  LoadAsync : list byte -> Z -> hresult Z;
  ReadBuffer : list byte -> Z -> hresult (list byte);
  (* the publisher *)
  GetTempPathW : option wstring;         (* None: the call returned 0 *)
  clock_naming : Z;                      (* system_clock ticks, 100 ns each *)
  clock_spawn : Z;
  ofstream_is_open : wstring -> bool;
  CreatePipe : bool;
  SetHandleInformation : bool;
  CreateProcessW : wstring -> Z + list string
    (* GetLastError of a failed spawn, or what ReadFile delivers per call *)
}.

(* ===================================================================== *)
(** ** Statements of a coroutine *)
(* ===================================================================== *)

(** How a statement of a coroutine that returns [R] ends. *)
Inductive Outcome (R A : Type) :=
| Normal (a : A)
| CoReturn (r : R)
| Throw (e : hresult_error).
Arguments Normal {R A} a.
Arguments CoReturn {R A} r.
Arguments Throw {R A} e.

Record Res (R A : Type) := mkRes {
  outcome : Outcome R A;
  final : State;
  emitted : list event
}.
Arguments mkRes {R A} _ _ _.
Arguments outcome {R A} _.
Arguments final {R A} _.
Arguments emitted {R A} _.

Definition M (R A : Type) : Type := State -> Res R A.

Definition M_ret {R A} (a : A) : M R A := fun st => mkRes (Normal a) st [].

(** The events of a statement, put before those of what follows it. *)
Definition after {R A} (evs : list event) (r : Res R A) : Res R A :=
  match r with
  | mkRes o st evs' => mkRes o st (evs ++ evs')
  end.

Definition M_bind {R A B} (k : A -> M R B) (m : M R A) : M R B := fun st =>
  match m st with
  | mkRes (Normal a) st' evs => after evs (k a st')
  | mkRes (CoReturn v) st' evs => mkRes (CoReturn v) st' evs
  | mkRes (Throw e) st' evs => mkRes (Throw e) st' evs
  end.

#[global] Instance M_MRet R : MRet (M R) := @M_ret R.
#[global] Instance M_MBind R : MBind (M R) := @M_bind R.

(** [co_return v;] *)
Definition co_return {R A} (v : R) : M R A := fun st => mkRes (CoReturn v) st [].

(** A WinRT call: its value, or its [hresult_error] thrown. *)
Definition winrt {R A} (call : hresult A) : M R A := fun st =>
  match call with
  | inl e => mkRes (Throw e) st []
  | inr a => mkRes (Normal a) st []
  end.

Definition emit {R} (e : event) : M R unit := fun st => mkRes (Normal tt) st [e].

Definition read {R A} (field : State -> A) : M R A := fun st =>
  mkRes (Normal (field st)) st [].

Definition write {R} (update : State -> State) : M R unit := fun st =>
  mkRes (Normal tt) (update st) [].

(** [try { body } catch (winrt::hresult_error const& ex) { handler }];
    a [co_return] inside [body] leaves the block. *)
Definition try_catch {R A} (body : M R A) (handler : hresult_error -> M R A)
  : M R A := fun st =>
  match body st with
  | mkRes (Throw ex) st' evs => after evs (handler ex st')
  | r => r
  end.

(** The body of a coroutine: every path through it ends in [co_return] or in
    an exception. *)
Abbreviation coroutine R := (M R Empty_set).

(** [co_await] of a coroutine of this program, run to its end: the awaiting
    statement resumes with the value returned, or with the exception. *)
Definition co_await {R' R} (callee : coroutine R) : M R' R := fun st =>
  match callee st with
  | mkRes (Normal a) _ _ => match a with end
  | mkRes (CoReturn v) st' evs => mkRes (Normal v) st' evs
  | mkRes (Throw e) st' evs => mkRes (Throw e) st' evs
  end.

(** The [co_await] expressions of [parseTrack] on operations of the system:
    there the run is suspended until the operation completes, and the rest
    of the program goes on. *)
Inductive Await :=
| await_TryGetMediaPropertiesAsync   (* line 292 *)
| await_OpenReadAsync                (* line 310 *)
| await_CopyAsync                    (* line 314 *)
| await_LoadAsync.                   (* line 320 *)

(** What the rest of the program does while a run is suspended: the state
    it leaves and what it did, for the state it found. *)
Definition Meanwhile := Await -> State -> State * list event.

(** Nothing happens meanwhile. *)
Definition alone : Meanwhile := fun _ st => (st, []).

(** [co_await] of an operation of the system: the rest of the program goes
    on, then the coroutine resumes with the value of the operation, or with
    its [hresult_error] thrown. *)
Definition co_await_on {R A} (meanwhile : Meanwhile) (a : Await) (call : hresult A)
  : M R A := fun st =>
  match meanwhile a st with
  | (st', evs) =>
      match call with
      | inl e => mkRes (Throw e) st' evs
      | inr v => mkRes (Normal v) st' evs
      end
  end.

(** Updates of single globals. *)
Definition set_isParsing (b : bool) (st : State) : State :=
  mkState b (g_lastTrackProcessed st) (g_currentSession st)
          (richPresence st) (files st).

Definition set_lastTrackProcessed (t : trackInfo) (st : State) : State :=
  mkState (g_isParsing st) t (g_currentSession st) (richPresence st) (files st).

Definition set_richPresence (p : option Activity) (st : State) : State :=
  mkState (g_isParsing st) (g_lastTrackProcessed st) (g_currentSession st)
          p (files st).

Definition set_files (fs : gmap (list N) (list Byte.byte)) (st : State) : State :=
  mkState (g_isParsing st) (g_lastTrackProcessed st) (g_currentSession st)
          (richPresence st) fs.

(** [struct ParsingGuard]: the constructor sets the flag when the guarded
    scope is entered, the destructor clears it when the scope is left, by
    whichever outcome. *)
Definition ParsingGuard {R A} (scope : M R A) : M R A := fun st =>
  match scope (set_isParsing true st) with
  | mkRes o st' evs =>
      mkRes o (set_isParsing false st')
            (isParsing_write true :: evs ++ [isParsing_write false])
  end.

(* ===================================================================== *)
(** ** The program *)
(* ===================================================================== *)

Definition RELEASE_VER : string := "v0.2".

(** The double quote of the command line. *)
Definition dquote : wstring := [34%N].

(** Ticks of [std::chrono::system_clock] in a millisecond and in seven
    minutes. *)
Definition ticks_per_ms : Z := 10000.
Definition minutes_7 : Z := 7 * 60 * 1000 * ticks_per_ms.

(** A count of ticks is a 64-bit signed integer ([long long]): a reading of
    the clock is one, and a sum that leaves the range wraps around, as it
    does in the compiled program. *)
Definition int64 (z : Z) : Z := (z + 2 ^ 63) mod 2 ^ 64 - 2 ^ 63.

(** The loop [while (ReadFile(...) && dwRead != 0) output.append(chBuf, dwRead)]
    over what the pipe delivers: it ends when [ReadFile] fails (no further
    delivery) or reads nothing.  The deliveries are finite: a child that
    never closes the pipe keeps the call from returning at all. *)
Fixpoint ReadFile_loop (reads : list string) (output : string) : string :=
  match reads with
  | [] => output
  | chBuf :: reads' =>
      match chBuf with
      | EmptyString => output
      | _ => ReadFile_loop reads' (output +:+ chBuf)
      end
  end.

(** [if (!wstr.empty() && (wstr.back() == L'\n' || wstr.back() == L'\r'))
    wstr.pop_back();] *)
Definition pop_eol (wstr : wstring) : wstring :=
  match last wstr with
  | Some c =>
      if bool_decide (c = 10%N) || bool_decide (c = 13%N)
      then removelast wstr else wstr
  | None => wstr
  end.

(** [BufferToVector]: the [Length()] bytes of the buffer, read through a
    [DataReader]. *)
Definition BufferToVector (buffer : list byte) : list byte :=
  take (length buffer) buffer.

Section Program.

Variable os : OS.

(** [ws2s]. *)
Definition ws2s (wstr : wstring) : string :=
  match wstr with
  | [] => EmptyString
  | _ => WideCharToMultiByte os wstr
  end.

(** The conversion of the child's output at the end of
    [UploadCoverArtAsync]; with an empty [output] the size query returns 0. *)
Definition s2ws (output : string) : wstring :=
  match output with
  | EmptyString => []
  | _ => MultiByteToWideChar os output
  end.

(** [clearPresence]. *)
Definition clearPresence {R} : M R unit :=
  emit ClearRichPresence;;
  write (set_richPresence None).

(** The activity [updatePresence] builds. *)
Definition activity_of (track : trackInfo) : Activity :=
  let large :=
    match coverArtUrl track with
    | [] => (None, None)
    | _ => (Some (ws2s (coverArtUrl track)), Some "Playing on TIDAL"%string)
    end in
  mkActivity Listening (ws2s (artist track)) (ws2s (title track))
    (ws2s (artist track))
    (mkAssets large.1 large.2 (Some "tidal-icon"%string)
       (Some ("tidal-rpc " +:+ RELEASE_VER +:+ " by @emiferpro"))
       (Some "https://github.com/Emiferpro/tidal-rpc"%string)).

(** [updatePresence]. *)
Definition updatePresence {R} (track : trackInfo) : M R unit :=
  let activity := activity_of track in
  emit (UpdateRichPresence activity);;
  write (set_richPresence (Some activity)).

(** The name of the scratch file (line 179): [tempPath] is the buffer that
    [GetTempPathW] filled, of which [std::wstring(tempPath)] takes the code
    units before the first NUL. *)
Definition tempFilePath_of (tempPath : wstring) : wstring :=
  c_str tempPath ++ L "\TIDALRPC_" ++ to_wstring (int64 (clock_naming os))
  ++ L ".png".

(** The command line of the upload (lines 214-216): the expiry is the clock
    plus seven minutes, in ticks, cast to milliseconds. *)
Definition command_of (tempFilePath : wstring) : wstring :=
  let expires_time := int64 (int64 (clock_spawn os) + minutes_7) in
  let expires_ms := Z.quot expires_time ticks_per_ms in
  L "curl.exe -s -F " ++ dquote ++ L "file=@" ++ tempFilePath ++ dquote ++
  L " -F " ++ dquote ++ L "expires=" ++ to_wstring expires_ms ++ dquote ++
  L " http://0x0.st".

(** [DeleteFileW(tempFilePath.c_str())]; the source does not look at what
    the call returns, the file is taken to be removed. *)
Definition DeleteFileW {R} (path : wstring) : M R unit :=
  emit (DeleteFileW_call (c_str path));;
  fs ← read files;
  write (set_files (delete (c_str path) fs)).

(** [UploadCoverArtAsync]. *)
Definition UploadCoverArtAsync (binaryData : list byte) : coroutine hstring :=
  emit GetTempPathW_call;;
  match GetTempPathW os with
  | None => co_return (L "Error: Could not get temp path")
  | Some tempPath =>
      let tempFilePath := tempFilePath_of tempPath in
      emit (ofstream_open (c_str tempFilePath) (ofstream_is_open os (c_str tempFilePath)));;
      (if ofstream_is_open os (c_str tempFilePath)
       then fs ← read files;
            write (set_files (<[c_str tempFilePath := binaryData]> fs))
       else co_return (L "Error: Could not open temp file for writing"));;
      emit CreatePipe_call;;
      (if CreatePipe os then mret tt
       else DeleteFileW tempFilePath;;
            co_return (L "Error: Could not create stdout pipe"));;
      emit SetHandleInformation_call;;
      (if SetHandleInformation os then mret tt
       else DeleteFileW tempFilePath;;
            co_return (L "Error: Could not set handle information for pipe"));;
      let command := command_of tempFilePath in
      emit (CreateProcessW_call (c_str command));;
      let output :=
        match CreateProcessW os (c_str command) with
        | inr reads => ReadFile_loop reads EmptyString
        | inl last_error =>
            "Error: CreateProcess failed with code " +:+ to_string last_error
        end in
      DeleteFileW tempFilePath;;
      co_return (pop_eol (pop_eol (s2ws output)))
  end.

(** Lines 333-342 of [parseTrack]: what becomes of the publisher's result. *)
Definition store_uploadedUrl {R} (uploadedUrl : hstring) (track : trackInfo)
  : M R trackInfo :=
  match uploadedUrl with
  | [] => mret track
  | _ =>
      if bool_decide (find uploadedUrl (L "Error:") = npos)
         && bool_decide (find uploadedUrl (L "Exception:") = npos)
      then
        let track := with_coverArtUrl track (c_str uploadedUrl) in
        emit (cout ("Upload successful: " +:+ ws2s (coverArtUrl track)));;
        mret track
      else
        emit (cerr ("Failed to upload cover art: " +:+ ws2s (c_str uploadedUrl)));;
        mret track
  end.

(** Lines 307-356 of [parseTrack]: the thumbnail, read into memory and
    published.  [UploadCoverArtAsync] has no [co_await] of its own: it has
    run to its end when the call of line 331 returns. *)
Definition cover_art_among {R} (meanwhile : Meanwhile)
    (thumbnail : option StreamReference) (track : trackInfo) : M R trackInfo :=
  match thumbnail with
  | Some thumbnail =>
      stream ← co_await_on meanwhile await_OpenReadAsync (OpenReadAsync thumbnail);
      match stream with
      | Some ((_ :: _) as stream) =>
          memoryStream ← co_await_on meanwhile await_CopyAsync (CopyAsync os stream);
          if bool_decide (0 < length memoryStream)%nat then
            numBytesLoaded ← co_await_on meanwhile await_LoadAsync
                               (LoadAsync os memoryStream
                                  (Z.of_nat (length memoryStream) mod 2 ^ 32));
            if bool_decide (0 < numBytesLoaded) then
              buffer ← winrt (ReadBuffer os memoryStream numBytesLoaded);
              if bool_decide (0 < length buffer)%nat then
                let stableData := BufferToVector buffer in
                if bool_decide (0 < length stableData)%nat then
                  emit (cout ("Found cover art for '" +:+ ws2s (title track)
                              +:+ "'. Uploading..."));;
                  uploadedUrl ← co_await (UploadCoverArtAsync stableData);
                  store_uploadedUrl uploadedUrl track
                else
                  emit (cerr "BufferToVector created a 0-size vector. Aborting upload.");;
                  mret track
              else
                emit (cerr "ReadBuffer created a 0-length buffer. Aborting upload.");;
                mret track
            else
              emit (cout ("Cover art stream for '" +:+ ws2s (title track)
                          +:+ "' was empty (0 bytes loaded)."));;
              mret track
          else
            emit (cout ("Cover art stream for '" +:+ ws2s (title track)
                        +:+ "' was empty (memoryStream size 0)."));;
            mret track
      | _ => mret track
      end
  | None =>
      emit (cout ("No cover art found for '" +:+ ws2s (title track) +:+ "'."));;
      mret track
  end.

Definition cover_art {R} (thumbnail : option StreamReference) (track : trackInfo)
  : M R trackInfo :=
  cover_art_among alone thumbnail track.

(** [parseTrack], with what the rest of the program does while it is
    suspended. *)
Definition parseTrack_among (meanwhile : Meanwhile) (force : bool)
  : coroutine unit :=
  isParsing ← read g_isParsing;
  (if negb force && isParsing
   then emit (cout "Already processing a track, ignoring concurrent event.");;
        co_return tt
   else mret tt);;
  ParsingGuard (
    currentSession ← read g_currentSession;
    match currentSession with
    | Some currentSession =>
        try_catch (
          appId ← winrt (SourceAppUserModelId currentSession);
          if bool_decide (find appId (L "TIDAL") <> npos) then
            mediaProperties ← co_await_on meanwhile await_TryGetMediaPropertiesAsync
                                (TryGetMediaPropertiesAsync currentSession);
            let track := mkTrack (c_str (Title mediaProperties))
                                 (c_str (Artist mediaProperties))
                                 (c_str (AlbumTitle mediaProperties))
                                 (L "") in
            lastTrackProcessed ← read g_lastTrackProcessed;
            (if negb force
                && bool_decide (title track = title lastTrackProcessed)
                && bool_decide (artist track = artist lastTrackProcessed)
             then emit (cout ("Duplicate event for '" +:+ ws2s (title track)
                              +:+ "' ignored."));;
                  co_return tt
             else mret tt);;
            track ← cover_art_among meanwhile (Thumbnail mediaProperties) track;
            updatePresence track;;
            write (set_lastTrackProcessed track)
          else
            emit (cout "No active TIDAL session found. Clearing presence.");;
            clearPresence;;
            write (set_lastTrackProcessed no_track)
        ) (fun ex =>
          emit (cerr ("Failed to parse track info: " +:+ ws2s (c_str (message ex))));;
          write (set_lastTrackProcessed no_track))
    | None =>
        emit (cout "No active media session found. Clearing presence.");;
        clearPresence;;
        write (set_lastTrackProcessed no_track)
    end;;
    co_return tt).

(** [parseTrack] on its own. *)
Definition parseTrack (force : bool) : coroutine unit :=
  parseTrack_among alone force.

End Program.

(* ===================================================================== *)
(** ** Vocabulary of the properties *)
(* ===================================================================== *)

(** Kinds of events. *)
Definition is_flag_write (e : event) : bool :=
  match e with isParsing_write _ => true | _ => false end.

Definition is_presence_update (e : event) : bool :=
  match e with UpdateRichPresence _ => true | _ => false end.

Definition is_presence_call (e : event) : bool :=
  match e with UpdateRichPresence _ | ClearRichPresence => true | _ => false end.

Definition is_upload_step (e : event) : bool :=
  match e with
  | GetTempPathW_call | ofstream_open _ _ | CreatePipe_call
  | SetHandleInformation_call | CreateProcessW_call _ | DeleteFileW_call _ => true
  | _ => false
  end.

Definition is_log (e : event) : bool :=
  match e with cout _ | cerr _ => true | _ => false end.

(** The files a run opened for writing, hence created or overwrote. *)
Definition scratch_files (evs : list event) : list (list N) :=
  omap (fun e => match e with ofstream_open path true => Some path | _ => None end) evs.

(** The invocation is not turned away by the entry guard of [parseTrack]. *)
Definition passes_guard (force : bool) (st : State) : Prop :=
  force = true \/ g_isParsing st = false.

(** There is a current session, its application id contains "TIDAL", and
    [fetch] is what [TryGetMediaPropertiesAsync] yields. *)
Definition target_session (st : State) (fetch : hresult MediaProperties) : Prop :=
  exists session appId,
    g_currentSession st = Some session /\
    SourceAppUserModelId session = inr appId /\
    contains appId (L "TIDAL") /\
    TryGetMediaPropertiesAsync session = fetch.

(** The [trackInfo] built from freshly fetched media properties. *)
Definition candidate (mp : MediaProperties) : trackInfo :=
  mkTrack (c_str (Title mp)) (c_str (Artist mp)) (c_str (AlbumTitle mp)) (L "").

(** The fetched (title, artist) is that of the last processed track. *)
Definition duplicate (st : State) (mp : MediaProperties) : Prop :=
  title (candidate mp) = title (g_lastTrackProcessed st) /\
  artist (candidate mp) = artist (g_lastTrackProcessed st).

(** The run gets past the duplicate check. *)
Definition fresh (force : bool) (st : State) (mp : MediaProperties) : Prop :=
  force = true \/ ~ duplicate st mp.

(** Every step of the thumbnail plumbing succeeds and yields bytes:
    [stableData] is what is handed to the publisher. *)
Definition thumbnail_bytes (os : OS) (mp : MediaProperties)
    (stableData : list byte) : Prop :=
  exists thumbnail stream memoryStream numBytesLoaded buffer,
    Thumbnail mp = Some thumbnail /\
    OpenReadAsync thumbnail = inr (Some stream) /\ stream <> [] /\
    CopyAsync os stream = inr memoryStream /\ memoryStream <> [] /\
    LoadAsync os memoryStream (Z.of_nat (length memoryStream) mod 2 ^ 32)
      = inr numBytesLoaded /\
    0 < numBytesLoaded /\
    ReadBuffer os memoryStream numBytesLoaded = inr buffer /\ buffer <> [] /\
    stableData = BufferToVector buffer.

(** The publisher, called with [stableData] inside the guarded scope of a
    run started in [st], returns [uploadedUrl]. *)
Definition publisher_returns (os : OS) (st : State) (stableData : list byte)
    (uploadedUrl : hstring) : Prop :=
  outcome (UploadCoverArtAsync os stableData (set_isParsing true st))
    = CoReturn uploadedUrl.

(** The test of lines 333-335 on the publisher's result. *)
Definition accepted (uploadedUrl : hstring) : bool :=
  match uploadedUrl with
  | [] => false
  | _ => bool_decide (find uploadedUrl (L "Error:") = npos)
         && bool_decide (find uploadedUrl (L "Exception:") = npos)
  end.

(** The line that reports a refused result. *)
Definition upload_failure_line (os : OS) (uploadedUrl : hstring) : event :=
  cerr ("Failed to upload cover art: " +:+ ws2s os (c_str uploadedUrl)).

(** The line the [catch] block writes. *)
Definition parse_failure_line (os : OS) (ex : hresult_error) : event :=
  cerr ("Failed to parse track info: " +:+ ws2s os (c_str (message ex))).

(** The first error the thumbnail plumbing of lines 307-327 runs into, if
    any. *)
Definition thumbnail_error (os : OS) (mp : MediaProperties) : option hresult_error :=
  match Thumbnail mp with
  | None => None
  | Some thumbnail =>
      match OpenReadAsync thumbnail with
      | inl ex => Some ex
      | inr (Some ((_ :: _) as stream)) =>
          match CopyAsync os stream with
          | inl ex => Some ex
          | inr memoryStream =>
              if bool_decide (0 < length memoryStream)%nat then
                match LoadAsync os memoryStream
                        (Z.of_nat (length memoryStream) mod 2 ^ 32) with
                | inl ex => Some ex
                | inr numBytesLoaded =>
                    if bool_decide (0 < numBytesLoaded) then
                      match ReadBuffer os memoryStream numBytesLoaded with
                      | inl ex => Some ex
                      | inr _ => None
                      end
                    else None
                end
              else None
          end
      | inr _ => None
      end
  end.

(** The lines of the two early exits. *)
Definition busy_line : event :=
  cout "Already processing a track, ignoring concurrent event.".

Definition duplicate_line (os : OS) (track : trackInfo) : event :=
  cout ("Duplicate event for '" +:+ ws2s os (title track) +:+ "' ignored.").

Definition is_error_line (e : event) : bool :=
  match e with cerr _ => true | _ => false end.

Definition announce_line (os : OS) (track : trackInfo) : event :=
  cout ("Found cover art for '" +:+ ws2s os (title track) +:+ "'. Uploading...").

(** What a run that entered the guarded scope leaves behind: [st'] and [evs]
    are the state and the events at the end of the scope. *)
Definition guarded (st' : State) (evs : list event) : Res unit Empty_set :=
  mkRes (CoReturn tt) (set_isParsing false st')
        (isParsing_write true :: evs ++ [isParsing_write false]).

(* ===================================================================== *)
(** ** A concrete world *)
(* ===================================================================== *)

Module Scenario.

(** Conversions of texts whose characters are all ASCII. *)
Definition narrow (w : list N) : string :=
  String.string_of_list_ascii (map Ascii.ascii_of_N w).

Definition bytes_of (s : string) : list Byte.byte :=
  map Ascii.byte_of_ascii (String.list_ascii_of_string s).

(** An operating system on which every call succeeds and copies faithfully;
    [spawn] is the fate of [CreateProcessW]. *)
Definition os_with (spawn : Z + list string) : OS :=
  mkOS narrow L
       (fun stream => inr stream) (fun _ count => inr count)
       (fun memoryStream _ => inr memoryStream)
       (Some (L "C:\Temp")) 17000000000000000 17000000000000000
       (fun _ => true) true true (fun _ => spawn).

(** curl.exe prints the URL and a newline. *)
Definition os_ok : OS :=
  os_with (inr ["https://0x0.st/abc.png"%string;
                String (Ascii.ascii_of_nat 10) EmptyString]).

(** curl.exe is not on the search path: ERROR_FILE_NOT_FOUND. *)
Definition os_no_curl : OS := os_with (inl 2).

(** [CreatePipe] fails; [SetHandleInformation] fails. *)
Definition os_no_pipe : OS :=
  mkOS narrow L
       (fun stream => inr stream) (fun _ count => inr count)
       (fun memoryStream _ => inr memoryStream)
       (Some (L "C:\Temp")) 17000000000000000 17000000000000000
       (fun _ => true) false true (fun _ => inl 0).

Definition os_no_handle : OS :=
  mkOS narrow L
       (fun stream => inr stream) (fun _ count => inr count)
       (fun memoryStream _ => inr memoryStream)
       (Some (L "C:\Temp")) 17000000000000000 17000000000000000
       (fun _ => true) true false (fun _ => inl 0).

(** The host answers with a body that has a NUL byte in it. *)
Definition os_nul : OS :=
  os_with (inr [("a" +:+ String (Ascii.ascii_of_nat 0) "b")%string]).

Definition E_FAIL : hresult_error := mkError (-2147467259) (L "Unspecified error").

Definition png : StreamReference :=
  mkStreamReference (inr (Some (bytes_of "PNG"))).

Definition broken_thumbnail : StreamReference := mkStreamReference (inl E_FAIL).

Definition song_a (thumbnail : option StreamReference) : MediaProperties :=
  mkMediaProperties (L "Song A") (L "Artist A") (L "Album A") thumbnail.

Definition tidal (fetch : hresult_error + MediaProperties) : Session :=
  mkSession (inr (L "TIDAL.exe!App")) fetch.

Definition spotify : Session :=
  mkSession (inr (L "Spotify.exe!App")) (inr (song_a None)).

(** No run in flight, nothing processed yet, no presence, no files. *)
Definition idle (session : option Session) : State :=
  mkState false no_track session None ∅.

(** A run is in flight. *)
Definition in_flight (session : option Session) : State :=
  mkState true no_track session None ∅.

(** The host answers with an error text of its own. *)
Definition os_refused : OS := os_with (inr ["Error: spawn failed"%string]).

(** "Song A" with artwork is playing in TIDAL and has not been seen yet. *)
Definition playing : State := idle (Some (tidal (inr (song_a (Some png))))).

(** The same, while a run is in flight. *)
Definition playing_in_flight : State :=
  in_flight (Some (tidal (inr (song_a (Some png))))).

(** "Song A" is playing and its thumbnail cannot be opened. *)
Definition unreadable : State :=
  idle (Some (tidal (inr (song_a (Some broken_thumbnail))))).

(** The media properties of the session cannot be fetched. *)
Definition unfetchable : State := idle (Some (tidal (inl E_FAIL))).

(** "Song A" has been reported. *)
Definition reported : State :=
  mkState false (candidate (song_a None)) (Some (tidal (inr (song_a None))))
          (Some (activity_of os_ok (candidate (song_a None)))) ∅.

End Scenario.

(* ===================================================================== *)
(** ** Further vocabulary: the publisher and the paths of a run *)
(* ===================================================================== *)

(** A code unit that ends a line: the two that [UploadCoverArtAsync] drops
    from the end of the child's output. *)
Definition is_eol (c : N) : Prop := c = 10%N \/ c = 13%N.

(** A text without NUL code unit. *)
Definition nul_free (w : list N) : Prop := Forall (fun c => c <> 0%N) w.

Definition track_nul_free (t : trackInfo) : Prop :=
  nul_free (title t) /\ nul_free (artist t) /\ nul_free (album t)
  /\ nul_free (coverArtUrl t).

(** The path under which the scratch file is opened and deleted. *)
Definition scratch_path (os : OS) (tempPath : list N) : list N :=
  c_str (tempFilePath_of os tempPath).

(** The command line handed to [CreateProcessW]. *)
Definition curl_command (os : OS) (tempPath : list N) : list N :=
  c_str (command_of os (tempFilePath_of os tempPath)).

(** A step of the publisher before the spawn fails. *)
Definition setup_fails (os : OS) : Prop :=
  match GetTempPathW os with
  | None => True
  | Some tempPath =>
      ofstream_is_open os (scratch_path os tempPath) = false
      \/ CreatePipe os = false \/ SetHandleInformation os = false
  end.

(** Every step of the publisher up to the spawn succeeds, and [spawn] is the
    fate of [CreateProcessW]. *)
Definition setup_succeeds (os : OS) (tempPath : list N) (spawn : Z + list string)
  : Prop :=
  GetTempPathW os = Some tempPath /\
  ofstream_is_open os (scratch_path os tempPath) = true /\
  CreatePipe os = true /\ SetHandleInformation os = true /\
  CreateProcessW os (curl_command os tempPath) = spawn.

Definition is_spawn (e : event) : bool :=
  match e with CreateProcessW_call _ => true | _ => false end.

(** The text a failed spawn leaves in [output]. *)
Definition spawn_failure_text (last_error : Z) : string :=
  "Error: CreateProcess failed with code " +:+ to_string last_error.

(** The thumbnail plumbing ends without bytes and without error; [lines] is
    what it writes on that path. *)
Inductive no_artwork (os : OS) (mp : MediaProperties) : list event -> Prop :=
| no_thumbnail :
    Thumbnail mp = None ->
    no_artwork os mp
      [cout ("No cover art found for '" +:+ ws2s os (title (candidate mp)) +:+ "'.")]
| null_stream thumbnail :
    Thumbnail mp = Some thumbnail -> OpenReadAsync thumbnail = inr None ->
    no_artwork os mp []
| empty_stream thumbnail :
    Thumbnail mp = Some thumbnail -> OpenReadAsync thumbnail = inr (Some []) ->
    no_artwork os mp []
| empty_copy thumbnail stream :
    Thumbnail mp = Some thumbnail -> OpenReadAsync thumbnail = inr (Some stream) ->
    stream <> [] -> CopyAsync os stream = inr [] ->
    no_artwork os mp
      [cout ("Cover art stream for '" +:+ ws2s os (title (candidate mp))
             +:+ "' was empty (memoryStream size 0).")]
| nothing_loaded thumbnail stream memoryStream numBytesLoaded :
    Thumbnail mp = Some thumbnail -> OpenReadAsync thumbnail = inr (Some stream) ->
    stream <> [] -> CopyAsync os stream = inr memoryStream -> memoryStream <> [] ->
    LoadAsync os memoryStream (Z.of_nat (length memoryStream) mod 2 ^ 32)
      = inr numBytesLoaded ->
    numBytesLoaded <= 0 ->
    no_artwork os mp
      [cout ("Cover art stream for '" +:+ ws2s os (title (candidate mp))
             +:+ "' was empty (0 bytes loaded).")]
| empty_buffer thumbnail stream memoryStream numBytesLoaded :
    Thumbnail mp = Some thumbnail -> OpenReadAsync thumbnail = inr (Some stream) ->
    stream <> [] -> CopyAsync os stream = inr memoryStream -> memoryStream <> [] ->
    LoadAsync os memoryStream (Z.of_nat (length memoryStream) mod 2 ^ 32)
      = inr numBytesLoaded ->
    0 < numBytesLoaded ->
    ReadBuffer os memoryStream numBytesLoaded = inr [] ->
    no_artwork os mp
      [cerr "ReadBuffer created a 0-length buffer. Aborting upload."].

(** The line of the branch taken when [BufferToVector] yields nothing. *)
Definition empty_vector_line : event :=
  cerr "BufferToVector created a 0-size vector. Aborting upload.".

(* ===================================================================== *)
(** ** Vocabulary of the flag while a run is suspended *)
(* ===================================================================== *)

(** Another invocation of the pipeline, made while a run is suspended and
    over before that run resumes: the state it leaves and what it did. *)
Definition arrival (os : OS) (force : bool) (st : State) : State * list event :=
  (final (parseTrack os force st), emitted (parseTrack os force st)).

(** Nothing that happens while a run is suspended clears the flag when it
    is set. *)
Definition flag_kept (meanwhile : Meanwhile) : Prop :=
  forall a st, g_isParsing st = true -> g_isParsing (meanwhile a st).1 = true.

(** Two courses of the rest of the program that are the same wherever the
    flag is set. *)
Definition same_while_set (meanwhile meanwhile' : Meanwhile) : Prop :=
  forall a st, g_isParsing st = true -> meanwhile' a st = meanwhile a st.

(** The rest of the program does not write the flag while a run is
    suspended: no scope guard of another run is entered or left. *)
Definition writes_no_flag (meanwhile : Meanwhile) : Prop :=
  forall a st, existsb is_flag_write (meanwhile a st).2 = false.

(* ===================================================================== *)
(** ** The observer, the tray and the message loop *)
(* ===================================================================== *)

(** Constants and the message record of <winuser.h>. *)
Module Win32.

Definition WM_DESTROY : Z := 2.          (* 0x0002 *)
Definition WM_QUIT : Z := 18.            (* 0x0012 *)
Definition WM_LBUTTONDBLCLK : Z := 515.  (* 0x0203 *)
Definition WM_RBUTTONUP : Z := 517.      (* 0x0205 *)
Definition WM_APP : Z := 32768.          (* 0x8000 *)

Record MSG := mkMSG {
  hwnd : Z;
  message : Z;
  wParam : Z;
  lParam : Z
}.

(** [(int)w] of a [WPARAM]. *)
Definition to_int (w : Z) : Z := (w + 2 ^ 31) mod 2 ^ 32 - 2 ^ 31.

End Win32.

(** The program beyond the pipeline: the globals of the pipeline, the
    session on which the [MediaPropertiesChanged] handler is registered
    (what [g_mediaPropertiesChangedToken] stands for), the hidden window,
    the tray icon, the console window with its visibility, and the exit
    code handed to [PostQuitMessage].  The program keeps the handler on the
    current session; that is what lets it revoke the handler through the
    current session. *)
Record Shell := mkShell {
  globals : State;
  handler_on : option Session;
  g_hWnd : Z;
  tray_icon : bool;
  g_hConsoleWnd : option bool;
  quit_posted : option Z
}.

(** What the program does beyond the pipeline, in program order. *)
Inductive shell_event :=
| pipeline (e : event)
| resume_after (ms : Z)              (* co_await std::chrono::milliseconds *)
| MessageBoxW_call (text caption : list N)
| SetForegroundWindow_console
| RunCallbacks_call
| sleep_for (ms : Z)
| FreeConsole_call.

Definition set_currentSession (s : option Session) (st : State) : State :=
  mkState (g_isParsing st) (g_lastTrackProcessed st) s (richPresence st) (files st).

Definition set_globals (st : State) (sh : Shell) : Shell :=
  mkShell st (handler_on sh) (g_hWnd sh) (tray_icon sh) (g_hConsoleWnd sh)
          (quit_posted sh).

Definition set_handler_on (s : option Session) (sh : Shell) : Shell :=
  mkShell (globals sh) s (g_hWnd sh) (tray_icon sh) (g_hConsoleWnd sh)
          (quit_posted sh).

Definition set_console (c : option bool) (sh : Shell) : Shell :=
  mkShell (globals sh) (handler_on sh) (g_hWnd sh) (tray_icon sh) c
          (quit_posted sh).

(** [Shell_NotifyIconW(NIM_DELETE, ...); PostQuitMessage(code);] *)
Definition leave (exit_code : Z) (sh : Shell) : Shell :=
  mkShell (globals sh) (handler_on sh) (g_hWnd sh) false (g_hConsoleWnd sh)
          (Some exit_code).

(** How a handler ends, the program after it, and what it did. *)
Record Handled := mkHandled {
  ended : Outcome unit Empty_set;
  shell : Shell;
  seen : list shell_event
}.

(** A pipeline run started from the shell. *)
Definition run_parseTrack (os : OS) (force : bool) (sh : Shell)
    (before : list shell_event) : Handled :=
  mkHandled (outcome (parseTrack os force (globals sh)))
            (set_globals (final (parseTrack os force (globals sh))) sh)
            (before ++ map pipeline (emitted (parseTrack os force (globals sh)))).

(** [RegisterMediaPropertiesChangedHandler], its registration returning the
    token. *)
Definition RegisterMediaPropertiesChangedHandler (sh : Shell)
  : Shell * list shell_event :=
  match g_currentSession (globals sh) with
  | Some session =>
      (set_handler_on (Some session) sh,
       [pipeline (cout "Registering MediaPropertiesChanged event handler.")])
  | None => (sh, [])
  end.

(** What the rest of the program does while a handler waits at
    [co_await std::chrono::milliseconds(300)]: the program it leaves and
    what it did, for the program it found. *)
Definition Elapse := Shell -> Shell * list shell_event.

(** Nothing happens during the wait. *)
Definition undisturbed : Elapse := fun sh => (sh, []).

(** The handler of [MediaPropertiesChanged] (lines 394-400): the wait, then
    the run on the program as the wait left it. *)
Definition MediaPropertiesChanged (elapse : Elapse) (os : OS) (sh : Shell)
  : Handled :=
  let waited := elapse sh in
  run_parseTrack os false waited.1
    (waited.2 ++
     [resume_after 300;
      pipeline (cout "Media properties changed. Reparsing track...")]).

(** The handler of [CurrentSessionChanged] up to its wait (lines 547-554);
    [next] is what [GetCurrentSession] returns. *)
Definition session_changed (next : option Session) (sh : Shell)
  : Shell * list shell_event :=
  let sh :=
    match g_currentSession (globals sh) with
    | Some _ => set_handler_on None sh
    | None => sh
    end in
  let sh := set_globals (set_lastTrackProcessed no_track (globals sh)) sh in
  let sh := set_globals (set_currentSession next (globals sh)) sh in
  let registered := RegisterMediaPropertiesChangedHandler sh in
  (registered.1,
   pipeline (cout "Current media session changed.") :: registered.2).

(** The handler of [CurrentSessionChanged] (lines 545-559): the flag and the
    cache are read by the run of line 558, on the program as the wait of
    line 556 left it. *)
Definition CurrentSessionChanged (elapse : Elapse) (os : OS)
    (next : option Session) (sh : Shell) : Handled :=
  let changed := session_changed next sh in
  let waited := elapse changed.1 in
  run_parseTrack os false waited.1
    (changed.2 ++ waited.2 ++ [resume_after 300]).

(** The answers of the operating system while one message is handled. *)
Record Answers := mkAnswers {
  TrackPopupMenu : Z;      (* the command chosen in the tray menu, 0 for none *)
  DefWindowProc : Z;       (* the result of the default handling *)
  run_os : OS              (* the answers to a pipeline run started meanwhile *)
}.

(** [ShowTrayMenu]. *)
Definition ShowTrayMenu (answers : Answers) (sh : Shell) : Shell * list shell_event :=
  let cmd := TrackPopupMenu answers in
  if bool_decide (cmd = 1) then
    let run := run_parseTrack (run_os answers) true sh [] in
    (shell run, seen run)
  else if bool_decide (cmd = 2) then
    (leave 0 sh, [])
  else if bool_decide (cmd = 3) then
    match g_hConsoleWnd sh with
    | Some isVisible =>
        (set_console (Some (negb isVisible)) sh,
         if isVisible then [] else [SetForegroundWindow_console])
    | None => (sh, [])
    end
  else (sh, []).

(** [WndProc]: the result, the program after it, and what it did. *)
Definition WndProc (hwnd msg wParam lParam : Z) (answers : Answers) (sh : Shell)
  : Z * (Shell * list shell_event) :=
  if bool_decide (msg = Win32.WM_APP + 1) then
    (0, if bool_decide (lParam = Win32.WM_RBUTTONUP) then ShowTrayMenu answers sh
        else if bool_decide (lParam = Win32.WM_LBUTTONDBLCLK) then
          (sh, [MessageBoxW_call (L "TIDAL Rich Presence is running.")
                                 (L "TIDAL RPC")])
        else (sh, []))
  else if bool_decide (msg = Win32.WM_DESTROY) then
    (0, (leave 0 sh, []))
  else (DefWindowProc answers, (sh, [])).

(** The inner loop of [wWinMain]: the messages [PeekMessage] hands out
    before it reports an empty queue, each with the answers given while it
    is handled.  The result says whether WM_QUIT was among them. *)
Fixpoint peek_messages (queue : list (Win32.MSG * Answers)) (sh : Shell)
  : option Win32.MSG * (Shell * list shell_event) :=
  match queue with
  | [] => (None, (sh, []))
  | (msg, answers) :: queue' =>
      if bool_decide (Win32.message msg = Win32.WM_QUIT) then (Some msg, (sh, []))
      else
        let dispatched :=
          if bool_decide (Win32.hwnd msg = g_hWnd sh)
          then (WndProc (Win32.hwnd msg) (Win32.message msg) (Win32.wParam msg)
                        (Win32.lParam msg) answers sh).2
          else (sh, []) in
        let rest := peek_messages queue' dispatched.1 in
        (rest.1, (rest.2.1, dispatched.2 ++ rest.2.2))
  end.

(** The end of [wWinMain] after the loop: the presence is cleared, the
    console freed, and the [wParam] of WM_QUIT returned. *)
Definition shut_down (quit : Win32.MSG) (sh : Shell) : Z * (Shell * list shell_event) :=
  let cleared := clearPresence (R:=unit) (globals sh) in
  (Win32.to_int (Win32.wParam quit),
   (set_globals (final cleared) sh,
    map pipeline (emitted cleared)
    ++ match g_hConsoleWnd sh with Some _ => [FreeConsole_call] | None => [] end)).

(** The message loop of [wWinMain] with what follows it: one element of
    [ticks] per turn of the outer loop.  [None]: the loop has not ended
    within [ticks]. *)
Fixpoint message_loop (ticks : list (list (Win32.MSG * Answers))) (sh : Shell)
  : option (Z * (Shell * list shell_event)) :=
  match ticks with
  | [] => None
  | queue :: ticks' =>
      let peeked := peek_messages queue sh in
      match peeked.1 with
      | Some quit =>
          let down := shut_down quit peeked.2.1 in
          Some (down.1, (down.2.1, peeked.2.2 ++ down.2.2))
      | None =>
          match message_loop ticks' peeked.2.1 with
          | Some (code, (sh', evs)) =>
              Some (code, (sh', peeked.2.2 ++ RunCallbacks_call :: sleep_for 16 :: evs))
          | None => None
          end
      end
  end.

(** The answers of the operating system while [wWinMain] starts up. *)
Record Boot := mkBoot {
  AllocConsole : bool;
  GetConsoleWindow : bool;              (* a console window is returned *)
  CreateWindowExW : option Z;           (* the hidden window; None is NULL *)
  RequestAsync : hresult_error + unit;  (* the session manager, or thrown *)
  add_CurrentSessionChanged : hresult_error + unit;   (* line 545 *)
  GetCurrentSession : hresult_error + option Session;
  add_MediaPropertiesChanged : hresult_error + unit;  (* line 394 *)
  boot_os : OS;                         (* the answers to the initial run *)
  boot_files : gmap (list N) (list Byte.byte)
}.

(** [CreateDebugConsole]. *)
Definition CreateDebugConsole (boot : Boot) : option bool * list shell_event :=
  if AllocConsole boot
  then (if GetConsoleWindow boot then Some false else None,
        [pipeline (cout "Debug Console Initialized.")])
  else (None, []).

(** The text of the error shown when the media subsystem cannot be set up:
    [L"FATAL: ..." + std::wstring(ex.message())]. *)
Definition fatal_text (ex : hresult_error) : list N :=
  L "FATAL: WinRT initialization failed: " ++ message ex.

(** The [catch] block of [wWinMain]. *)
Definition fatal (os : OS) (ex : hresult_error) : list shell_event :=
  [pipeline (cerr (ws2s os (fatal_text ex)));
   MessageBoxW_call (c_str (fatal_text ex)) (L "TIDAL RPC Error")].

(** [wWinMain] up to its message loop: [inl] when it returns early, with the
    value returned and the program as it is left (none before the window
    exists), otherwise the program as the loop finds it.  Every call of the
    [try] block that can throw has its [catch]: the request for the session
    manager, the two registrations of handlers, the query for the current
    session, and the initial run. *)
Definition start_up (boot : Boot)
  : (Z * option Shell + Shell) * list shell_event :=
  let console := CreateDebugConsole boot in
  match CreateWindowExW boot with
  | None => (inl (-1, None), console.2)
  | Some hWnd =>
      let sh := mkShell (mkState false no_track None None (boot_files boot))
                        None hWnd true console.1 None in
      match RequestAsync boot with
      | inl ex => (inl (-1, Some sh), console.2 ++ fatal (boot_os boot) ex)
      | inr _ =>
          match add_CurrentSessionChanged boot with
          | inl ex => (inl (-1, Some sh), console.2 ++ fatal (boot_os boot) ex)
          | inr _ =>
              match GetCurrentSession boot with
              | inl ex => (inl (-1, Some sh), console.2 ++ fatal (boot_os boot) ex)
              | inr currentSession =>
                  let sh :=
                    set_globals (set_currentSession currentSession (globals sh)) sh in
                  match currentSession with
                  | Some _ =>
                      let registered := RegisterMediaPropertiesChangedHandler sh in
                      match add_MediaPropertiesChanged boot with
                      | inl ex =>
                          (* the line of 393 is written, the token is not *)
                          (inl (-1, Some sh),
                           console.2 ++ registered.2 ++ fatal (boot_os boot) ex)
                      | inr _ =>
                          let run :=
                            run_parseTrack (boot_os boot) false registered.1
                              (console.2 ++ registered.2 ++
                               [pipeline
                                  (cout "Performing initial track analysis...")]) in
                          match ended run with
                          | Throw ex =>
                              (inl (-1, Some (shell run)),
                               seen run ++ fatal (boot_os boot) ex)
                          | _ => (inr (shell run), seen run)
                          end
                      end
                  | None =>
                      (inr sh,
                       console.2 ++
                       [pipeline (cout "No active media session on startup. Waiting for changes.")])
                  end
              end
          end
      end
  end.

(** [wWinMain]: its return value, the program at its end (none before the
    window exists), and what it did; [None] when the loop has not ended
    within [ticks]. *)
Definition wWinMain (boot : Boot) (ticks : list (list (Win32.MSG * Answers)))
  : option (Z * (option Shell * list shell_event)) :=
  match start_up boot with
  | (inl (code, sh), evs) => Some (code, (sh, evs))
  | (inr sh, evs) =>
      match message_loop ticks sh with
      | Some (code, (sh', evs')) => Some (code, (Some sh', evs ++ evs'))
      | None => None
      end
  end.

(** Presence calls among the events of the shell. *)
Definition is_shell_presence_call (e : shell_event) : bool :=
  match e with pipeline e => is_presence_call e | _ => false end.

(** The handler of [MediaPropertiesChanged] is registered on the current
    session, and on no other. *)
Definition subscribed (sh : Shell) : Prop :=
  handler_on sh = g_currentSession (globals sh).

(* ===================================================================== *)
(** ** More of the concrete world *)
(* ===================================================================== *)

Module Stage.

Import Scenario.

(** No temporary directory. *)
Definition os_no_temp : OS :=
  mkOS narrow L
       (fun stream => inr stream) (fun _ count => inr count)
       (fun memoryStream _ => inr memoryStream)
       None 17000000000000000 17000000000000000
       (fun _ => true) true true (fun _ => inl 0).

(** The thumbnail stream cannot be copied. *)
Definition os_copy_fails : OS :=
  mkOS narrow L
       (fun _ => inl E_FAIL) (fun _ count => inr count)
       (fun memoryStream _ => inr memoryStream)
       (Some (L "C:\Temp")) 17000000000000000 17000000000000000
       (fun _ => true) true true (fun _ => inl 0).

(** The clock stands at the largest count of ticks when curl.exe is
    spawned. *)
Definition os_last_tick : OS :=
  mkOS narrow L
       (fun stream => inr stream) (fun _ count => inr count)
       (fun memoryStream _ => inr memoryStream)
       (Some (L "C:\Temp")) 17000000000000000 (2 ^ 63 - 1)
       (fun _ => true) true true (fun _ => inl 0).

(** The buffer of [GetTempPathW] as it may be found: the path, its
    terminating NUL, and what the buffer held before. *)
Definition stale_buffer : list N := L "C:\T" ++ [0%N] ++ L "mp".

(** A session whose application id cannot be read. *)
Definition sealed : Session := mkSession (inl E_FAIL) (inr (song_a None)).

(** A track of the target application without title, artist and album. *)
Definition unnamed : MediaProperties := mkMediaProperties [] [] [] None.

(** The program around given globals: the handler on the current session,
    the tray icon shown, the console hidden. *)
Definition shell_of (st : State) : Shell :=
  mkShell st (g_currentSession st) 1 true (Some false) None.

(** While a run waits for the media properties, "Force Update" is chosen in
    the tray menu and the forced run comes to its end; while the first run
    then waits for the thumbnail to open, a notification starts a run of its
    own, which comes to its end too. *)
Definition overlap : Meanwhile := fun a st =>
  match a with
  | await_TryGetMediaPropertiesAsync => arrival os_copy_fails true st
  | await_OpenReadAsync => arrival os_copy_fails false st
  | _ => (st, [])
  end.

(** A notification arrives whenever the run is suspended. *)
Definition notified (os : OS) : Meanwhile := fun _ st => arrival os false st.

(** The pipeline is found busy whenever the run is suspended. *)
Definition turned_away : Meanwhile := fun _ st => (st, [busy_line]).

(** The run in flight comes to its end while a handler waits. *)
Definition run_ends : Elapse := fun sh =>
  (set_globals (set_isParsing false (globals sh)) sh,
   [pipeline (isParsing_write false)]).

(** Answers while a message is handled: [cmd] is chosen in the tray menu. *)
Definition choose (cmd : Z) : Answers := mkAnswers cmd 0 os_ok.

Definition quit_message : Win32.MSG := Win32.mkMSG 0 Win32.WM_QUIT 7 0.

Definition double_click : Win32.MSG :=
  Win32.mkMSG 1 (Win32.WM_APP + 1) 1 Win32.WM_LBUTTONDBLCLK.

(** Start-up with "Song A" playing, and start-up without media subsystem. *)
Definition boot_playing : Boot :=
  mkBoot true true (Some 1) (inr tt) (inr tt)
         (inr (Some (tidal (inr (song_a None))))) (inr tt) os_ok ∅.

Definition boot_fatal : Boot :=
  mkBoot true true (Some 1) (inl E_FAIL) (inr tt) (inr None) (inr tt) os_ok ∅.

End Stage.

(* ===================================================================== *)
(** ** Text search *)
(* ===================================================================== *)

Lemma starts_with_spec needle hay :
  starts_with needle hay = true <-> exists rest, hay = needle ++ rest.
Proof.
  revert hay; induction needle as [|a needle IH]; intros hay; simpl.
  - split; eauto.
  - destruct hay as [|b hay]; simpl.
    + split; [discriminate | intros [rest H]; discriminate].
    + rewrite andb_true_iff, bool_decide_eq_true, IH. split.
      * intros [-> [rest ->]]. eauto.
      * intros [rest H]. injection H as -> ->. eauto.
Qed.

Lemma starts_with_contains needle hay :
  starts_with needle hay = true -> contains hay needle.
Proof.
  intros H. apply starts_with_spec in H as [rest ->]. exists [], rest. reflexivity.
Qed.

Lemma find_from_None pos needle hay :
  find_from pos needle hay = None <-> ~ contains hay needle.
Proof.
  revert pos; induction hay as [|c hay IH]; intros pos; simpl;
    destruct (starts_with needle _) eqn:E.
  - split; [discriminate|]. intros H. destruct H. by apply starts_with_contains.
  - split; [|done]. intros _ (before & rest & H).
    destruct before; simpl in H; [|discriminate].
    assert (starts_with needle [] = true) by (apply starts_with_spec; eauto).
    congruence.
  - split; [discriminate|]. intros H. destruct H. by apply starts_with_contains.
  - rewrite IH. split; intros H (before & rest & G); apply H.
    + destruct before as [|b before]; simpl in G.
      * assert (starts_with needle (c :: hay) = true)
          by (apply starts_with_spec; eauto). congruence.
      * injection G as -> G. by exists before, rest.
    + exists (c :: before), rest. by rewrite G.
Qed.

Lemma find_npos hay needle : find hay needle = npos <-> ~ contains hay needle.
Proof. apply find_from_None. Qed.

Lemma find_from_Some pos needle hay n :
  find_from pos needle hay = Some n -> contains hay needle.
Proof.
  revert pos; induction hay as [|c hay IH]; intros pos; simpl;
    destruct (starts_with needle _) eqn:E; try discriminate;
    try (intros _; by apply starts_with_contains).
  intros H. apply IH in H as (before & rest & ->). by exists (c :: before), rest.
Qed.

Lemma find_found hay needle : find hay needle <> npos <-> contains hay needle.
Proof.
  rewrite find_npos. split; [|tauto].
  intros H. destruct (find hay needle) eqn:E.
  - by apply find_from_Some in E.
  - destruct H. by apply find_npos.
Qed.

Lemma accepted_spec uploadedUrl :
  accepted uploadedUrl = true <->
  uploadedUrl <> [] /\ ~ contains uploadedUrl (L "Error:")
  /\ ~ contains uploadedUrl (L "Exception:").
Proof.
  unfold accepted. destruct uploadedUrl as [|c u].
  - split; [discriminate | intros [H _]; by destruct H].
  - rewrite andb_true_iff, !bool_decide_eq_true, !find_npos. split.
    + intros [? ?]. done.
    + intros (_ & ? & ?). done.
Qed.

Lemma c_str_nul_free w : Forall (fun c => c <> 0%N) w -> c_str w = w.
Proof.
  induction 1 as [|c w Hc _ IH]; simpl; [done|].
  rewrite bool_decide_eq_false_2 by done. by rewrite IH.
Qed.

Lemma BufferToVector_id buffer : BufferToVector buffer = buffer.
Proof. unfold BufferToVector. apply firstn_all. Qed.

(* ===================================================================== *)
(** ** Running the statements *)
(* ===================================================================== *)

(** Symbolic execution: the monad is unfolded, the program is not. *)
Ltac exec :=
  cbv beta iota zeta delta
    [mbind mret M_MBind M_MRet M_bind M_ret read write emit co_return co_await
     co_await_on alone winrt try_catch ParsingGuard clearPresence updatePresence
     DeleteFileW after];
  cbn [g_isParsing g_currentSession g_lastTrackProcessed richPresence files
       set_isParsing set_richPresence set_files set_lastTrackProcessed app
       title artist album coverArtUrl].

(** The thumbnail block of the run on its own. *)
Ltac fold_cover_art :=
  repeat match goal with
         | |- context [@cover_art_among ?os ?R alone] =>
             change (@cover_art_among os R alone) with (@cover_art os R)
         end.

Ltac tidy := cbn [app]; rewrite ?app_nil_r, <- ?app_assoc; cbn [app].

Lemma guard_passed force st :
  passes_guard force st -> negb force && g_isParsing st = false.
Proof. intros [-> | ->]; [reflexivity | apply andb_false_r]. Qed.

Lemma set_isParsing_restore st :
  g_isParsing st = false -> set_isParsing false (set_isParsing true st) = st.
Proof. destruct st; simpl; intros ->; reflexivity. Qed.

(** *** The publisher *)

(** Every call of the publisher returns a text, emits publisher steps only,
    touches nothing but the files, and leaves the files as they were except
    that the scratch file, once opened, is gone. *)
Lemma UploadCoverArtAsync_returns os binaryData st :
  exists uploadedUrl evs fs,
    UploadCoverArtAsync os binaryData st
      = mkRes (CoReturn uploadedUrl) (set_files fs st) evs /\
    forallb is_upload_step evs = true /\
    Forall (fun path => fs !! path = None) (scratch_files evs) /\
    (scratch_files evs = [] -> fs = files st).
Proof.
  unfold UploadCoverArtAsync. exec.
  destruct (GetTempPathW os) as [tempPath|]; exec.
  2: { eexists _, _, (files st). split; [destruct st; reflexivity|].
       repeat split; constructor. }
  destruct (ofstream_is_open os _) eqn:Hopen; exec.
  2: { eexists _, _, (files st). split; [destruct st; reflexivity|].
       repeat split; constructor. }
  destruct (CreatePipe os), (SetHandleInformation os); exec;
    eexists _, _, _; (split; [reflexivity|]);
    (split; [reflexivity|]);
    (split; [repeat constructor; apply lookup_delete_eq | discriminate]).
Qed.

(** *** The thumbnail block *)

Lemma store_uploadedUrl_eq {R} os uploadedUrl track st :
  store_uploadedUrl (R:=R) os uploadedUrl track st =
    if accepted uploadedUrl
    then mkRes (Normal (with_coverArtUrl track (c_str uploadedUrl))) st
           [cout ("Upload successful: " +:+ ws2s os (c_str uploadedUrl))]
    else mkRes (Normal track) st
           match uploadedUrl with
           | [] => []
           | _ => [upload_failure_line os uploadedUrl]
           end.
Proof.
  unfold store_uploadedUrl, accepted. destruct uploadedUrl as [|c u]; [reflexivity|].
  destruct (_ && _); reflexivity.
Qed.

(** With bytes at hand the block is the announcement, the publisher, and the
    test of its result. *)
Lemma cover_art_upload {R} os mp stableData track st :
  thumbnail_bytes os mp stableData ->
  cover_art (R:=R) os (Thumbnail mp) track st =
    after [cout ("Found cover art for '" +:+ ws2s os (title track)
                 +:+ "'. Uploading...")]
      match UploadCoverArtAsync os stableData st with
      | mkRes (CoReturn uploadedUrl) st' evs =>
          after evs (store_uploadedUrl os uploadedUrl track st')
      | mkRes (Throw e) st' evs => mkRes (Throw e) st' evs
      | mkRes (Normal a) _ _ => match a with end
      end.
Proof.
  intros (thumbnail & stream & ms & n & buffer & -> & Ho & Hs & Hc & Hm & Hl & Hn
          & Hr & Hb & ->).
  unfold cover_art, cover_art_among. exec. rewrite Ho. destruct stream as [|b stream]; [done|]. exec.
  rewrite Hc. exec.
  rewrite bool_decide_eq_true_2 by (destruct ms; [done | simpl; lia]).
  rewrite Hl. exec. rewrite bool_decide_eq_true_2 by done.
  rewrite Hr. exec.
  rewrite bool_decide_eq_true_2 by (destruct buffer; [done | simpl; lia]).
  rewrite BufferToVector_id.
  rewrite bool_decide_eq_true_2 by (destruct buffer; [done | simpl; lia]).
  destruct (UploadCoverArtAsync _ _ _) as [[[]|u|e] st' evs]; exec; [|reflexivity].
  destruct (store_uploadedUrl _ _ _ _); reflexivity.
Qed.

(** The block never leaves the coroutine, changes only the artwork of the
    track and the files of the state, and emits log lines and publisher
    steps only. *)
Lemma cover_art_frame {R} os thumbnail track st :
  exists o fs evs,
    cover_art (R:=R) os thumbnail track st = mkRes o (set_files fs st) evs /\
    forallb (fun e => is_log e || is_upload_step e) evs = true /\
    match o with
    | Normal track' =>
        title track' = title track /\ artist track' = artist track /\
        album track' = album track
    | CoReturn _ => False
    | Throw _ => True
    end.
Proof.
  assert (Hst : st = set_files (files st) st) by (destruct st; reflexivity).
  unfold cover_art, cover_art_among. exec.
  destruct thumbnail as [thumbnail|]; exec.
  2: { eexists _, _, _. split; [by rewrite Hst at 1|]. done. }
  destruct (OpenReadAsync thumbnail) as [e|[[|b stream]|]]; exec;
    try (eexists _, _, _; split; [by rewrite Hst at 1|]; done).
  destruct (CopyAsync os _) as [e|ms]; exec;
    try (eexists _, _, _; split; [by rewrite Hst at 1|]; done).
  destruct (bool_decide (0 < length ms)%nat); exec;
    try (eexists _, _, _; split; [by rewrite Hst at 1|]; done).
  destruct (LoadAsync os _ _) as [e|n]; exec;
    try (eexists _, _, _; split; [by rewrite Hst at 1|]; done).
  destruct (bool_decide (0 < n)); exec;
    try (eexists _, _, _; split; [by rewrite Hst at 1|]; done).
  destruct (ReadBuffer os _ _) as [e|buffer]; exec;
    try (eexists _, _, _; split; [by rewrite Hst at 1|]; done).
  destruct (bool_decide (0 < length buffer)%nat); exec;
    try (eexists _, _, _; split; [by rewrite Hst at 1|]; done).
  destruct (bool_decide (0 < length (BufferToVector buffer))%nat); exec;
    try (eexists _, _, _; split; [by rewrite Hst at 1|]; done).
  destruct (UploadCoverArtAsync_returns os (BufferToVector buffer) st)
    as (u & evs & fs & -> & Hevs & _).
  rewrite store_uploadedUrl_eq.
  destruct (accepted u); exec; eexists _, fs, _; (split; [reflexivity|]); split;
    try done; cbn [forallb is_log is_upload_step orb andb];
    rewrite forallb_app; apply andb_true_iff; split;
    try (destruct u; reflexivity);
    (eapply forallb_forall; intros e He;
     rewrite forallb_forall in Hevs; rewrite (Hevs e He); apply orb_true_r).
Qed.

(** *** The paths of [parseTrack] *)

Lemma parseTrack_busy os st :
  g_isParsing st = true ->
  parseTrack os false st = mkRes (CoReturn tt) st [busy_line].
Proof. intros H. unfold parseTrack, parseTrack_among. fold_cover_art. exec. rewrite H. reflexivity. Qed.

Lemma parseTrack_no_session os force st :
  passes_guard force st -> g_currentSession st = None ->
  parseTrack os force st =
    guarded (set_lastTrackProcessed no_track
               (set_richPresence None (set_isParsing true st)))
      [cout "No active media session found. Clearing presence.";
       ClearRichPresence].
Proof.
  intros Hg Hs. unfold parseTrack, parseTrack_among. fold_cover_art. exec.
  rewrite (guard_passed _ _ Hg), Hs. reflexivity.
Qed.

Lemma parseTrack_not_target os force st session appId :
  passes_guard force st -> g_currentSession st = Some session ->
  SourceAppUserModelId session = inr appId -> ~ contains appId (L "TIDAL") ->
  parseTrack os force st =
    guarded (set_lastTrackProcessed no_track
               (set_richPresence None (set_isParsing true st)))
      [cout "No active TIDAL session found. Clearing presence.";
       ClearRichPresence].
Proof.
  intros Hg Hs Hid Hin. unfold parseTrack, parseTrack_among. fold_cover_art. exec.
  rewrite (guard_passed _ _ Hg), Hs. exec. rewrite Hid.
  rewrite bool_decide_eq_false_2 by (rewrite find_found; tauto).
  reflexivity.
Qed.

Lemma parseTrack_appId_failed os force st session ex :
  passes_guard force st -> g_currentSession st = Some session ->
  SourceAppUserModelId session = inl ex ->
  parseTrack os force st =
    guarded (set_lastTrackProcessed no_track (set_isParsing true st))
      [parse_failure_line os ex].
Proof.
  intros Hg Hs Hid. unfold parseTrack, parseTrack_among. fold_cover_art. exec.
  rewrite (guard_passed _ _ Hg), Hs. exec. rewrite Hid. reflexivity.
Qed.

Lemma parseTrack_fetch_failed os force st ex :
  passes_guard force st -> target_session st (inl ex) ->
  parseTrack os force st =
    guarded (set_lastTrackProcessed no_track (set_isParsing true st))
      [parse_failure_line os ex].
Proof.
  intros Hg (s & appId & Hs & Hid & Hin & Hf). unfold parseTrack, parseTrack_among. fold_cover_art. exec.
  rewrite (guard_passed _ _ Hg), Hs. exec. rewrite Hid.
  rewrite bool_decide_eq_true_2 by (rewrite find_found; tauto).
  rewrite Hf. reflexivity.
Qed.

Lemma parseTrack_duplicate os st mp :
  g_isParsing st = false -> target_session st (inr mp) -> duplicate st mp ->
  parseTrack os false st =
    guarded (set_isParsing true st) [duplicate_line os (candidate mp)].
Proof.
  intros Hg (s & appId & Hs & Hid & Hin & Hf) [Ht Ha]. unfold parseTrack, parseTrack_among. fold_cover_art. exec.
  rewrite Hg. cbn [negb andb]. exec. rewrite Hs. exec. rewrite Hid.
  rewrite bool_decide_eq_true_2 by (rewrite find_found; tauto).
  rewrite Hf. exec. simpl in Ht, Ha.
  rewrite !bool_decide_eq_true_2 by done. reflexivity.
Qed.

Lemma parseTrack_fresh os force st mp :
  passes_guard force st -> target_session st (inr mp) -> fresh force st mp ->
  parseTrack os force st =
    match cover_art os (Thumbnail mp) (candidate mp) (set_isParsing true st) with
    | mkRes (Normal track) st' evs =>
        guarded (set_lastTrackProcessed track
                   (set_richPresence (Some (activity_of os track)) st'))
          (evs ++ [UpdateRichPresence (activity_of os track)])
    | mkRes (CoReturn v) st' evs =>
        mkRes (CoReturn v) (set_isParsing false st')
          (isParsing_write true :: evs ++ [isParsing_write false])
    | mkRes (Throw ex) st' evs =>
        guarded (set_lastTrackProcessed no_track st')
          (evs ++ [parse_failure_line os ex])
    end.
Proof.
  intros Hg (s & appId & Hs & Hid & Hin & Hf) Hd. unfold parseTrack, parseTrack_among. fold_cover_art. exec.
  rewrite (guard_passed _ _ Hg), Hs. exec. rewrite Hid.
  rewrite bool_decide_eq_true_2 by (rewrite find_found; tauto).
  rewrite Hf. exec.
  assert (negb force
          && bool_decide (c_str (Title mp) = title (g_lastTrackProcessed st))
          && bool_decide (c_str (Artist mp) = artist (g_lastTrackProcessed st))
          = false) as ->.
  { destruct Hd as [-> | Hd]; [reflexivity|]. destruct force; [reflexivity|].
    cbn [negb andb]. apply andb_false_iff. rewrite !bool_decide_eq_false.
    unfold duplicate in Hd. simpl in Hd.
    destruct (decide (c_str (Title mp) = title (g_lastTrackProcessed st))); tauto. }
  unfold candidate, guarded. exec.
  destruct (cover_art _ _ _ _) as [[track| |] st' evs]; exec; tidy; reflexivity.
Qed.

(** A run that reaches the publisher and is handed [uploadedUrl]. *)
Lemma parseTrack_upload os force st mp stableData uploadedUrl :
  passes_guard force st -> target_session st (inr mp) -> fresh force st mp ->
  thumbnail_bytes os mp stableData ->
  publisher_returns os st stableData uploadedUrl ->
  let up := UploadCoverArtAsync os stableData (set_isParsing true st) in
  let track := if accepted uploadedUrl
               then with_coverArtUrl (candidate mp) (c_str uploadedUrl)
               else candidate mp in
  parseTrack os force st =
    guarded (set_lastTrackProcessed track
               (set_richPresence (Some (activity_of os track)) (final up)))
      (announce_line os (candidate mp) :: emitted up ++
       (if accepted uploadedUrl
        then [cout ("Upload successful: " +:+ ws2s os (c_str uploadedUrl))]
        else match uploadedUrl with
             | [] => []
             | _ => [upload_failure_line os uploadedUrl]
             end) ++
       [UpdateRichPresence (activity_of os track)]).
Proof.
  intros Hg Ht Hf Hb Hu up track. subst up track.
  rewrite (parseTrack_fresh _ _ _ _ Hg Ht Hf), (cover_art_upload _ _ _ _ _ Hb).
  unfold publisher_returns in Hu.
  destruct (UploadCoverArtAsync _ _ _) as [o st' evs]. simpl in Hu. subst o.
  rewrite store_uploadedUrl_eq. cbn [final emitted].
  destruct (accepted uploadedUrl); exec; unfold guarded; tidy; reflexivity.
Qed.

(** *** Consequences used by several properties *)

(** Events of the thumbnail block are neither flag writes nor presence
    calls. *)
Lemma thumbnail_events_quiet (p : event -> bool) evs :
  (forall e, is_log e || is_upload_step e = true -> p e = false) ->
  forallb (fun e => is_log e || is_upload_step e) evs = true ->
  existsb p evs = false.
Proof.
  intros Hp. induction evs as [|e evs IH]; simpl; [done|].
  rewrite andb_true_iff. intros [He Hevs]. by rewrite (Hp e He), IH.
Qed.

Lemma upload_steps_quiet (p : event -> bool) evs :
  (forall e, is_upload_step e = true -> p e = false) ->
  forallb is_upload_step evs = true ->
  existsb p evs = false.
Proof.
  intros Hp. induction evs as [|e evs IH]; simpl; [done|].
  rewrite andb_true_iff. intros [He Hevs]. by rewrite (Hp e He), IH.
Qed.

(** An exception out of the thumbnail block is an error of its plumbing. *)
Lemma cover_art_throws {R} os mp track st ex st' evs :
  cover_art (R:=R) os (Thumbnail mp) track st = mkRes (Throw ex) st' evs ->
  thumbnail_error os mp = Some ex.
Proof.
  unfold cover_art, cover_art_among, thumbnail_error. exec.
  destruct (Thumbnail mp) as [thumbnail|]; exec; [|discriminate].
  destruct (OpenReadAsync thumbnail) as [e|[[|b stream]|]]; exec;
    try discriminate; [congruence|].
  destruct (CopyAsync os _) as [e|ms]; exec; [congruence|].
  destruct (bool_decide (0 < length ms)%nat); exec; [|discriminate].
  destruct (LoadAsync os _ _) as [e|n]; exec; [congruence|].
  destruct (bool_decide (0 < n)); exec; [|discriminate].
  destruct (ReadBuffer os _ _) as [e|buffer]; exec; [congruence|].
  destruct (bool_decide (0 < length buffer)%nat); exec; [|discriminate].
  destruct (bool_decide (0 < length (BufferToVector buffer))%nat); exec;
    [|discriminate].
  destruct (UploadCoverArtAsync_returns os (BufferToVector buffer) st)
    as (u & evs' & fs & -> & _).
  rewrite store_uploadedUrl_eq. destruct (accepted u); discriminate.
Qed.

(** A result that starts with "Error:" is refused. *)
Lemma error_prefix_refused uploadedUrl :
  starts_with (L "Error:") uploadedUrl = true -> accepted uploadedUrl = false.
Proof.
  intros H. apply not_true_is_false. rewrite accepted_spec.
  intros (_ & Hn & _). apply Hn. by apply starts_with_contains.
Qed.

Lemma error_prefix_nonempty uploadedUrl :
  starts_with (L "Error:") uploadedUrl = true -> uploadedUrl <> [].
Proof. by intros H ->. Qed.

(** With an empty artwork URL no large image is set. *)
Lemma activity_without_art os track :
  coverArtUrl track = [] -> LargeImage (Assets (activity_of os track)) = None.
Proof. unfold activity_of. by intros ->. Qed.

(** *** A run among the rest of the program *)

(** The thumbnail block never leaves the coroutine, whatever happens while
    it is suspended. *)
Lemma cover_art_among_stays {R} os meanwhile thumbnail track st :
  match outcome (cover_art_among (R:=R) os meanwhile thumbnail track st) with
  | CoReturn _ => False
  | _ => True
  end.
Proof.
  unfold cover_art_among. exec.
  destruct thumbnail as [thumbnail|]; exec; [|done].
  destruct (meanwhile await_OpenReadAsync st) as [st1 evs1].
  destruct (OpenReadAsync thumbnail) as [e|[[|b stream]|]]; exec; try done.
  destruct (meanwhile await_CopyAsync st1) as [st2 evs2].
  destruct (CopyAsync os _) as [e|ms]; exec; [done|].
  destruct (bool_decide (0 < length ms)%nat); exec; [|done].
  destruct (meanwhile await_LoadAsync st2) as [st3 evs3].
  destruct (LoadAsync os _ _) as [e|n]; exec; [done|].
  destruct (bool_decide (0 < n)); exec; [|done].
  destruct (ReadBuffer os _ _) as [e|buffer]; exec; [done|].
  destruct (bool_decide (0 < length buffer)%nat); exec; [|done].
  destruct (bool_decide (0 < length (BufferToVector buffer))%nat); exec; [|done].
  destruct (UploadCoverArtAsync_returns os (BufferToVector buffer) st3)
    as (u & evs & fs & -> & _).
  rewrite store_uploadedUrl_eq. by destruct (accepted u).
Qed.

(** The thumbnail block is suspended only in states whose flag is set, if it
    starts in one and nothing clears the flag meanwhile. *)
Lemma cover_art_among_same {R} os meanwhile meanwhile' thumbnail track st :
  flag_kept meanwhile -> same_while_set meanwhile meanwhile' ->
  g_isParsing st = true ->
  cover_art_among (R:=R) os meanwhile' thumbnail track st
    = cover_art_among os meanwhile thumbnail track st.
Proof.
  intros Hk Hs Hst. unfold cover_art_among. exec.
  destruct thumbnail as [thumbnail|]; exec; [|done].
  rewrite (Hs _ _ Hst). pose proof (Hk await_OpenReadAsync _ Hst) as H1.
  destruct (meanwhile await_OpenReadAsync st) as [st1 evs1]. simpl in H1.
  destruct (OpenReadAsync thumbnail) as [e|[[|b stream]|]]; exec; try done.
  rewrite (Hs _ _ H1). pose proof (Hk await_CopyAsync _ H1) as H2.
  destruct (meanwhile await_CopyAsync st1) as [st2 evs2]. simpl in H2.
  destruct (CopyAsync os _) as [e|ms]; exec; [done|].
  destruct (bool_decide (0 < length ms)%nat); exec; [|done].
  by rewrite (Hs _ _ H2).
Qed.

(** No flag write among events known to hold none. *)
Ltac hush :=
  cbn [emitted];
  repeat (rewrite ?existsb_app; cbn [existsb is_flag_write orb]);
  repeat match goal with
         | Q : existsb is_flag_write _ = false |- _ => rewrite Q
         end;
  try done.

(** The thumbnail block does not write the flag. *)
Lemma cover_art_among_quiet {R} os meanwhile thumbnail track st :
  writes_no_flag meanwhile ->
  existsb is_flag_write
    (emitted (cover_art_among (R:=R) os meanwhile thumbnail track st)) = false.
Proof.
  intros Hq. unfold cover_art_among. exec.
  destruct thumbnail as [thumbnail|]; exec; [|done].
  pose proof (Hq await_OpenReadAsync st) as Q1.
  destruct (meanwhile await_OpenReadAsync st) as [st1 evs1]. simpl in Q1.
  destruct (OpenReadAsync thumbnail) as [e|[[|b stream]|]]; exec; try by hush.
  pose proof (Hq await_CopyAsync st1) as Q2.
  destruct (meanwhile await_CopyAsync st1) as [st2 evs2]. simpl in Q2.
  destruct (CopyAsync os _) as [e|ms]; exec; [by hush|].
  destruct (bool_decide (0 < length ms)%nat); exec; [|by hush].
  pose proof (Hq await_LoadAsync st2) as Q3.
  destruct (meanwhile await_LoadAsync st2) as [st3 evs3]. simpl in Q3.
  destruct (LoadAsync os _ _) as [e|n]; exec; [by hush|].
  destruct (bool_decide (0 < n)); exec; [|by hush].
  destruct (ReadBuffer os _ _) as [e|buffer]; exec; [by hush|].
  destruct (bool_decide (0 < length buffer)%nat); exec; [|by hush].
  destruct (bool_decide (0 < length (BufferToVector buffer))%nat); exec;
    [|by hush].
  destruct (UploadCoverArtAsync_returns os (BufferToVector buffer) st3)
    as (u & evs & fs & -> & Hevs & _).
  assert (Q4 : existsb is_flag_write evs = false).
  { revert Hevs. apply upload_steps_quiet. by intros []. }
  rewrite store_uploadedUrl_eq.
  destruct (accepted u); exec; [by hush|]. destruct u; by hush.
Qed.

(** Every invocation that gets past the entry guard ends in [co_return] at
    the end of the guarded scope, whatever happens while it is suspended,
    and the run itself does not write the flag inside the scope. *)
Lemma parseTrack_among_guarded os meanwhile force st :
  passes_guard force st ->
  exists st' mid,
    parseTrack_among os meanwhile force st = guarded st' mid /\
    (writes_no_flag meanwhile -> existsb is_flag_write mid = false).
Proof.
  intros Hg. unfold parseTrack_among, guarded. exec.
  rewrite (guard_passed _ _ Hg).
  destruct (g_currentSession st) as [session|]; exec; [|by eexists _, [_; _]].
  destruct (SourceAppUserModelId session) as [ex|appId]; exec; [by eexists _, [_]|].
  destruct (bool_decide (find appId (L "TIDAL") <> npos)); exec;
    [|by eexists _, [_; _]].
  destruct (meanwhile await_TryGetMediaPropertiesAsync _) as [st1 evs1] eqn:E1.
  assert (Q1 : writes_no_flag meanwhile -> existsb is_flag_write evs1 = false).
  { intros Hq. specialize (Hq await_TryGetMediaPropertiesAsync (set_isParsing true st)).
    by rewrite E1 in Hq. }
  destruct (TryGetMediaPropertiesAsync session) as [ex|mp]; exec.
  { eexists _, (evs1 ++ [_]). split; [tidy; reflexivity|].
    intros Hq. specialize (Q1 Hq). by hush. }
  destruct (negb force && _ && _); exec.
  { eexists _, (evs1 ++ [_]). split; [tidy; reflexivity|].
    intros Hq. specialize (Q1 Hq). by hush. }
  pose proof (cover_art_among_stays (R:=unit) os meanwhile (Thumbnail mp)
                (mkTrack (c_str (Title mp)) (c_str (Artist mp))
                   (c_str (AlbumTitle mp)) (L "")) st1) as Hstay.
  pose proof (cover_art_among_quiet (R:=unit) os meanwhile (Thumbnail mp)
                (mkTrack (c_str (Title mp)) (c_str (Artist mp))
                   (c_str (AlbumTitle mp)) (L "")) st1) as Q2.
  destruct (cover_art_among _ _ _ _ _) as [[track|v|ex] st2 evs2]; [|done|];
    exec; eexists _, (evs1 ++ evs2 ++ [_]);
    (split; [tidy; reflexivity|]);
    intros Hq; specialize (Q1 Hq); specialize (Q2 Hq); simpl in Q2; by hush.
Qed.

(** A run is suspended only in states whose flag is set, if nothing clears
    the flag meanwhile: what the rest of the program would do in a state
    with the flag clear has no bearing on the run. *)
Lemma parseTrack_among_same os meanwhile meanwhile' force st :
  flag_kept meanwhile -> same_while_set meanwhile meanwhile' ->
  parseTrack_among os meanwhile' force st = parseTrack_among os meanwhile force st.
Proof.
  intros Hk Hs. unfold parseTrack_among. exec.
  destruct (negb force && g_isParsing st); exec; [done|].
  destruct (g_currentSession st) as [session|]; exec; [|done].
  destruct (SourceAppUserModelId session) as [ex|appId]; exec; [done|].
  destruct (bool_decide (find appId (L "TIDAL") <> npos)); exec; [|done].
  assert (H0 : g_isParsing (set_isParsing true st) = true) by done.
  rewrite (Hs _ _ H0). pose proof (Hk await_TryGetMediaPropertiesAsync _ H0) as H1.
  destruct (meanwhile await_TryGetMediaPropertiesAsync _) as [st1 evs1]. simpl in H1.
  destruct (TryGetMediaPropertiesAsync session) as [ex|mp]; exec; [done|].
  destruct (negb force && _ && _); exec; [done|].
  by rewrite (cover_art_among_same (R:=unit) os meanwhile meanwhile' _ _ st1 Hk Hs H1).
Qed.

(* ===================================================================== *)
(** ** The properties of a pipeline run *)
(* ===================================================================== *)

(** C1.  A non-forced run whose freshly fetched (title, artist) equals that
    of the last processed track exits at the duplicate check, before the
    thumbnail is looked at: the only thing it does is to write the
    "Duplicate event" line, no step of an upload and no presence call
    occurs, and the state at the end, hence the cache and the presence, is
    the state at the start. *)
Theorem duplicate_run_ignored os st mp :
  g_isParsing st = false -> target_session st (inr mp) -> duplicate st mp ->
  let r := parseTrack os false st in
  outcome r = CoReturn tt /\
  emitted r = [isParsing_write true; duplicate_line os (candidate mp);
               isParsing_write false] /\
  existsb is_upload_step (emitted r) = false /\
  existsb is_presence_call (emitted r) = false /\
  g_lastTrackProcessed (final r) = g_lastTrackProcessed st /\
  richPresence (final r) = richPresence st /\
  final r = st.
Proof.
  intros Hg Ht Hd r. subst r. rewrite (parseTrack_duplicate _ _ _ Hg Ht Hd).
  unfold guarded. cbn [outcome emitted final app].
  rewrite (set_isParsing_restore _ Hg). repeat split; reflexivity.
Qed.

(** C2.  A non-forced invocation made while the flag is set returns at once:
    it writes the "Already processing" line and nothing else, so no presence
    call and no step of an upload occurs, and the state, hence the flag, the
    cache and the presence, is unchanged. *)
Theorem busy_run_ignored os st :
  g_isParsing st = true ->
  let r := parseTrack os false st in
  outcome r = CoReturn tt /\
  emitted r = [busy_line] /\
  existsb is_presence_call (emitted r) = false /\
  existsb is_upload_step (emitted r) = false /\
  g_isParsing (final r) = g_isParsing st /\
  g_lastTrackProcessed (final r) = g_lastTrackProcessed st /\
  richPresence (final r) = richPresence st /\
  final r = st.
Proof.
  intros Hg r. subst r. rewrite (parseTrack_busy _ _ Hg).
  repeat split; reflexivity.
Qed.

(** C5.  When the metadata fetch throws, the run writes the "Failed to parse
    track info" line, empties the cache, and ends without any presence call,
    the presence being left as it was; the run returns, the exception does
    not leave it. *)
Theorem fetch_failure_contained os force st ex :
  passes_guard force st -> target_session st (inl ex) ->
  let r := parseTrack os force st in
  outcome r = CoReturn tt /\
  emitted r = [isParsing_write true; parse_failure_line os ex;
               isParsing_write false] /\
  g_lastTrackProcessed (final r) = no_track /\
  existsb is_presence_call (emitted r) = false /\
  richPresence (final r) = richPresence st.
Proof.
  intros Hg Ht r. subst r. rewrite (parseTrack_fetch_failed _ _ _ _ Hg Ht).
  repeat split; reflexivity.
Qed.

(** C8.  A run that enters the guarded scope with no session, or with a
    session whose application id does not contain "TIDAL", clears the
    presence, empties the cache and ends: one log line and the clear call
    are all it does, so nothing is fetched and no step of an upload
    occurs. *)
Theorem no_target_session_clears os force st :
  passes_guard force st ->
  (g_currentSession st = None \/
   exists session appId,
     g_currentSession st = Some session /\
     SourceAppUserModelId session = inr appId /\
     ~ contains appId (L "TIDAL")) ->
  let r := parseTrack os force st in
  outcome r = CoReturn tt /\
  (exists line, emitted r = [isParsing_write true; cout line; ClearRichPresence;
                             isParsing_write false]) /\
  richPresence (final r) = None /\
  g_lastTrackProcessed (final r) = no_track /\
  existsb is_upload_step (emitted r) = false /\
  existsb is_presence_update (emitted r) = false /\
  files (final r) = files st.
Proof.
  intros Hg [Hs | (session & appId & Hs & Hid & Hin)] r; subst r.
  - rewrite (parseTrack_no_session _ _ _ Hg Hs).
    repeat split; try reflexivity. eexists; reflexivity.
  - rewrite (parseTrack_not_target _ _ _ _ _ Hg Hs Hid Hin).
    repeat split; try reflexivity. eexists; reflexivity.
Qed.

(** The scope guard clears the flag however the scope is left. *)
Lemma ParsingGuard_releases {R A} (scope : M R A) st :
  g_isParsing (final (ParsingGuard scope st)) = false.
Proof. unfold ParsingGuard. by destruct (scope _). Qed.

(** Every invocation that gets past the entry guard ends in [co_return] at
    the end of the guarded scope, and nothing inside the scope writes the
    flag. *)
Lemma parseTrack_guarded os force st :
  passes_guard force st ->
  exists st' mid,
    parseTrack os force st = guarded st' mid /\
    existsb is_flag_write mid = false.
Proof.
  intros Hg.
  destruct (g_currentSession st) as [session|] eqn:Hs.
  2: { rewrite (parseTrack_no_session _ _ _ Hg Hs). by eexists _, _. }
  destruct (SourceAppUserModelId session) as [ex|appId] eqn:Hid.
  { rewrite (parseTrack_appId_failed _ _ _ _ _ Hg Hs Hid). by eexists _, _. }
  destruct (decide (find appId (L "TIDAL") = npos)) as [Hn|Hn].
  { apply find_npos in Hn.
    rewrite (parseTrack_not_target _ _ _ _ _ Hg Hs Hid Hn). by eexists _, _. }
  apply find_found in Hn.
  destruct (TryGetMediaPropertiesAsync session) as [ex|mp] eqn:Hf.
  { rewrite (parseTrack_fetch_failed os force st ex Hg) by by exists session, appId.
    by eexists _, _. }
  assert (Ht : target_session st (inr mp)) by by exists session, appId.
  assert (Hd : fresh force st mp \/ (force = false /\ duplicate st mp)).
  { unfold fresh, duplicate. destruct force; [by left; left|].
    destruct (decide (title (candidate mp) = title (g_lastTrackProcessed st)
                      /\ artist (candidate mp) = artist (g_lastTrackProcessed st)));
      [by right | by left; right]. }
  destruct Hd as [Hd | [-> Hd]].
  - rewrite (parseTrack_fresh _ _ _ _ Hg Ht Hd).
    destruct (cover_art_frame (R:=unit) os (Thumbnail mp) (candidate mp)
                (set_isParsing true st)) as (o & fs & evs & -> & Hevs & Ho).
    assert (Hq : existsb is_flag_write evs = false).
    { revert Hevs. apply thumbnail_events_quiet. by intros []. }
    destruct o as [track|v|ex]; [|done|]; eexists _, _;
      (split; [reflexivity|]); rewrite existsb_app, Hq; done.
  - destruct Hg as [Hg|Hg]; [done|].
    rewrite (parseTrack_duplicate _ _ _ Hg Ht Hd). by eexists _, _.
Qed.

(** No exception leaves [parseTrack]: every invocation returns. *)
Lemma parseTrack_returns os force st :
  outcome (parseTrack os force st) = CoReturn tt.
Proof.
  destruct (negb force && g_isParsing st) eqn:Hb.
  - apply andb_true_iff in Hb as [Hf Hp]. destruct force; [done|].
    by rewrite (parseTrack_busy _ _ Hp).
  - assert (Hg : passes_guard force st).
    { destruct force; [by left|]. by right. }
    by destruct (parseTrack_guarded os force st Hg) as (st' & mid & -> & _).
Qed.

(** C4, as amended.  A run that gets past the entry guard, forced or not,
    sets the flag on entry.  As long as nothing else clears it, the flag is
    set in every state in which the run is suspended and the rest of the
    program goes on: what the rest of the program would do in a state with
    the flag clear has no bearing on the run (so a notification that
    arrives then is turned away).  The run does not write the flag again
    until it ends.  Whatever the rest of the program does, the run ends in
    [co_return], and at its end, whichever way it ends (completion,
    duplicate, no session, foreign session, caught exception), the flag is
    clear. *)
Theorem guard_held os meanwhile force st :
  passes_guard force st ->
  let r := parseTrack_among os meanwhile force st in
  (flag_kept meanwhile ->
   forall meanwhile', same_while_set meanwhile meanwhile' ->
     parseTrack_among os meanwhile' force st = r) /\
  (exists mid,
     emitted r = isParsing_write true :: mid ++ [isParsing_write false] /\
     (writes_no_flag meanwhile -> existsb is_flag_write mid = false)) /\
  outcome r = CoReturn tt /\
  g_isParsing (final r) = false.
Proof.
  intros Hg r. subst r. split.
  { intros Hk meanwhile' Hs. by apply parseTrack_among_same. }
  destruct (parseTrack_among_guarded os meanwhile force st Hg)
    as (st' & mid & -> & Hmid).
  split_and!; [by exists mid | done | done].
Qed.

(** C9.  Whatever bytes the publisher is given, and however the operating
    system answers, the call returns a text, and no file it opened for
    writing exists when it returns. *)
Theorem scratch_file_removed os binaryData st :
  (exists uploadedUrl,
     outcome (UploadCoverArtAsync os binaryData st) = CoReturn uploadedUrl) /\
  Forall (fun path => files (final (UploadCoverArtAsync os binaryData st)) !! path
                      = None)
         (scratch_files (emitted (UploadCoverArtAsync os binaryData st))).
Proof.
  destruct (UploadCoverArtAsync_returns os binaryData st)
    as (u & evs & fs & -> & _ & Hfs & _).
  split; [by exists u | done].
Qed.

(** On the paths on which the file was opened, it is the one scratch file of
    the call. *)
Lemma scratch_file_created os binaryData st tempPath :
  GetTempPathW os = Some tempPath ->
  ofstream_is_open os (c_str (tempFilePath_of os tempPath)) = true ->
  scratch_files (emitted (UploadCoverArtAsync os binaryData st))
    = [c_str (tempFilePath_of os tempPath)].
Proof.
  intros Hp Ho. unfold UploadCoverArtAsync. exec. rewrite Hp. exec. rewrite Ho. exec.
  destruct (CreatePipe os), (SetHandleInformation os); reflexivity.
Qed.

(** C3, as amended.  A forced run on a session of the target application
    whose metadata fetch succeeds and whose thumbnail plumbing throws
    nothing makes a presence-update call, whatever the cache and the flag
    hold, and leaves the fetched track, with the artwork it got, in the
    cache. *)
Theorem forced_run_reports os st mp :
  target_session st (inr mp) -> thumbnail_error os mp = None ->
  exists track,
    title track = title (candidate mp) /\
    artist track = artist (candidate mp) /\
    album track = album (candidate mp) /\
    In (UpdateRichPresence (activity_of os track)) (emitted (parseTrack os true st)) /\
    richPresence (final (parseTrack os true st)) = Some (activity_of os track) /\
    g_lastTrackProcessed (final (parseTrack os true st)) = track.
Proof.
  intros Ht He.
  rewrite (parseTrack_fresh os true st mp) by (done || by left).
  destruct (cover_art (R:=unit) os (Thumbnail mp) (candidate mp) (set_isParsing true st))
    as [o st' evs] eqn:Hc.
  destruct (cover_art_frame (R:=unit) os (Thumbnail mp) (candidate mp)
              (set_isParsing true st)) as (o' & fs & evs' & Hc' & _ & Ho).
  rewrite Hc in Hc'. injection Hc' as <- -> <-.
  destruct o as [track|v|ex].
  - destruct Ho as (? & ? & ?). exists track. repeat split; try done.
    unfold guarded. cbn [emitted]. right. rewrite in_app_iff. left.
    rewrite in_app_iff. right. by left.
  - done.
  - apply cover_art_throws in Hc. congruence.
Qed.

(** C6, as amended.  When the publisher's result starts with "Error:", the
    run does not empty the cache: it stores the fetched track without
    artwork, and the next non-forced run over the same metadata is ignored
    as a duplicate. *)
Theorem upload_failure_keeps_track os force st mp stableData uploadedUrl :
  passes_guard force st -> target_session st (inr mp) -> fresh force st mp ->
  thumbnail_bytes os mp stableData ->
  publisher_returns os st stableData uploadedUrl ->
  starts_with (L "Error:") uploadedUrl = true ->
  g_lastTrackProcessed (final (parseTrack os force st)) = candidate mp /\
  forall os',
    emitted (parseTrack os' false (final (parseTrack os force st)))
      = [isParsing_write true; duplicate_line os' (candidate mp);
         isParsing_write false] /\
    final (parseTrack os' false (final (parseTrack os force st)))
      = final (parseTrack os force st).
Proof.
  intros Hg Ht Hf Hb Hu He.
  rewrite (parseTrack_upload _ _ _ _ _ _ Hg Ht Hf Hb Hu).
  rewrite (error_prefix_refused _ He). unfold guarded. cbn [final].
  destruct (UploadCoverArtAsync_returns os stableData (set_isParsing true st))
    as (u & evs & fs & -> & _). cbn [final].
  split; [reflexivity|]. intros os'.
  set (st1 := set_isParsing false _).
  assert (Hg1 : g_isParsing st1 = false) by reflexivity.
  assert (Ht1 : target_session st1 (inr mp)) by exact Ht.
  assert (Hd1 : duplicate st1 mp) by (split; reflexivity).
  rewrite (parseTrack_duplicate _ _ _ Hg1 Ht1 Hd1). unfold guarded.
  cbn [emitted final app]. split; [reflexivity|].
  by apply set_isParsing_restore.
Qed.

(** C7.  When the publisher's result starts with "Error:", the run goes on:
    it writes the "Failed to upload cover art" line, reports the presence
    without a large image, and stores the track, with an empty artwork URL,
    in the cache. *)
Theorem upload_failure_not_fatal os force st mp stableData uploadedUrl :
  passes_guard force st -> target_session st (inr mp) -> fresh force st mp ->
  thumbnail_bytes os mp stableData ->
  publisher_returns os st stableData uploadedUrl ->
  starts_with (L "Error:") uploadedUrl = true ->
  outcome (parseTrack os force st) = CoReturn tt /\
  emitted (parseTrack os force st)
    = isParsing_write true :: announce_line os (candidate mp)
      :: emitted (UploadCoverArtAsync os stableData (set_isParsing true st))
      ++ [upload_failure_line os uploadedUrl;
          UpdateRichPresence (activity_of os (candidate mp));
          isParsing_write false] /\
  LargeImage (Assets (activity_of os (candidate mp))) = None /\
  richPresence (final (parseTrack os force st))
    = Some (activity_of os (candidate mp)) /\
  g_lastTrackProcessed (final (parseTrack os force st)) = candidate mp /\
  coverArtUrl (candidate mp) = [].
Proof.
  intros Hg Ht Hf Hb Hu He.
  rewrite (parseTrack_upload _ _ _ _ _ _ Hg Ht Hf Hb Hu).
  rewrite (error_prefix_refused _ He). unfold guarded. cbn [outcome emitted final].
  destruct uploadedUrl as [|c u]; [done|]. tidy.
  repeat split; reflexivity.
Qed.

(** C10, as amended.  After an upload attempt the artwork URL of the track
    is the publisher's result up to its first NUL code unit exactly when
    that result is non-empty and contains neither "Error:" nor "Exception:"
    anywhere, and is empty otherwise; an empty result leaves no error line,
    and a result that contains "Error:" anywhere is refused with the
    "Failed to upload cover art" line. *)
Theorem upload_result_stored os force st mp stableData uploadedUrl :
  passes_guard force st -> target_session st (inr mp) -> fresh force st mp ->
  thumbnail_bytes os mp stableData ->
  publisher_returns os st stableData uploadedUrl ->
  (uploadedUrl <> [] /\ ~ contains uploadedUrl (L "Error:")
   /\ ~ contains uploadedUrl (L "Exception:") ->
   coverArtUrl (g_lastTrackProcessed (final (parseTrack os force st)))
     = c_str uploadedUrl) /\
  (~ (uploadedUrl <> [] /\ ~ contains uploadedUrl (L "Error:")
      /\ ~ contains uploadedUrl (L "Exception:")) ->
   coverArtUrl (g_lastTrackProcessed (final (parseTrack os force st))) = []) /\
  (uploadedUrl = [] ->
   existsb is_error_line (emitted (parseTrack os force st)) = false) /\
  (contains uploadedUrl (L "Error:") ->
   coverArtUrl (g_lastTrackProcessed (final (parseTrack os force st))) = [] /\
   In (upload_failure_line os uploadedUrl) (emitted (parseTrack os force st))).
Proof.
  intros Hg Ht Hf Hb Hu.
  rewrite (parseTrack_upload _ _ _ _ _ _ Hg Ht Hf Hb Hu).
  unfold guarded. cbn [emitted final g_lastTrackProcessed set_isParsing
                        set_lastTrackProcessed].
  destruct (UploadCoverArtAsync_returns os stableData (set_isParsing true st))
    as (u & evs & fs & -> & Hevs & _). cbn [emitted].
  repeat split.
  - intros Ha. apply accepted_spec in Ha. by rewrite Ha.
  - intros Ha. rewrite <- accepted_spec in Ha. apply not_true_is_false in Ha.
    by rewrite Ha.
  - intros ->. cbn [accepted app existsb is_error_line orb].
    rewrite !existsb_app. cbn [existsb is_error_line orb].
    rewrite (upload_steps_quiet is_error_line evs); [done | by intros [] | done].
  - assert (Ha : accepted uploadedUrl = false).
    { apply not_true_is_false. rewrite accepted_spec. tauto. }
    by rewrite Ha.
  - assert (Ha : accepted uploadedUrl = false).
    { apply not_true_is_false. rewrite accepted_spec. tauto. }
    rewrite Ha. destruct uploadedUrl as [|c w].
    { destruct H as (before & rest & H). destruct before; discriminate H. }
    right. right. rewrite !in_app_iff. left. right. left. by left.
Qed.

(* ===================================================================== *)
(** ** The properties at work in the concrete world *)
(* ===================================================================== *)

Section Instances.

Import Scenario.

Lemma tidal_is_target fetch :
  target_session (idle (Some (tidal fetch))) fetch.
Proof.
  exists (tidal fetch), (L "TIDAL.exe!App"). repeat split.
  by exists [], (L ".exe!App").
Defined.

Lemma png_bytes spawn :
  thumbnail_bytes (os_with spawn) (song_a (Some png)) (bytes_of "PNG").
Proof.
  exists png, (bytes_of "PNG"), (bytes_of "PNG"), 3, (bytes_of "PNG").
  repeat split; done.
Defined.

Lemma song_a_is_new thumbnail session :
  fresh false (idle session) (song_a thumbnail).
Proof. right. intros [H _]. discriminate H. Defined.

Lemma idle_passes force session : passes_guard force (idle session).
Proof. by right. Defined.

End Instances.

(** The clean-up of the publisher on its various paths: in each case the
    scratch file was opened and no file is left. *)
Example scratch_file_paths :
  Forall (fun os =>
            scratch_files (emitted (UploadCoverArtAsync os [] (Scenario.idle None)))
              = [L "C:\Temp\TIDALRPC_17000000000000000.png"] /\
            files (final (UploadCoverArtAsync os [] (Scenario.idle None))) = ∅)
    [Scenario.os_ok; Scenario.os_no_curl; Scenario.os_no_pipe;
     Scenario.os_no_handle].
Proof. repeat constructor; by vm_compute. Qed.

(** The spec's scenario D: the trailing newline of the URL is dropped. *)
Example url_newline_stripped :
  outcome (UploadCoverArtAsync Scenario.os_ok (Scenario.bytes_of "PNG")
             (Scenario.idle None))
    = CoReturn (L "https://0x0.st/abc.png").
Proof. by vm_compute. Qed.

(** The spec's scenario B: "Song A" without thumbnail is reported without
    artwork and becomes the last processed track. *)
Example first_report :
  parseTrack Scenario.os_ok false
    (Scenario.idle (Some (Scenario.tidal (inr (Scenario.song_a None)))))
  = guarded Scenario.reported
      [cout "No cover art found for 'Song A'.";
       UpdateRichPresence
         (activity_of Scenario.os_ok (candidate (Scenario.song_a None)))].
Proof. by vm_compute. Qed.

(** A forced run on "Song A" whose thumbnail cannot be opened: the claim C3
    as stated fails, there is no presence-update call and the cache does not
    hold the fetched track. *)
Lemma forced_run_without_report :
  target_session Scenario.unreadable
    (inr (Scenario.song_a (Some Scenario.broken_thumbnail))) /\
  existsb is_presence_update
    (emitted (parseTrack Scenario.os_ok true Scenario.unreadable)) = false /\
  g_lastTrackProcessed (final (parseTrack Scenario.os_ok true Scenario.unreadable))
    <> candidate (Scenario.song_a (Some Scenario.broken_thumbnail)).
Proof.
  split; [apply tidal_is_target|]. split; [by vm_compute|].
  vm_compute. discriminate.
Qed.

(** A forced run without any session makes no presence-update call
    either. *)
Lemma forced_run_without_session :
  existsb is_presence_update
    (emitted (parseTrack Scenario.os_ok true (Scenario.idle None))) = false.
Proof. by vm_compute. Qed.

(** curl.exe cannot be spawned: the claim C6 as stated fails, the cache is
    not emptied and the next trigger for the same track is ignored as a
    duplicate. *)
Lemma upload_failure_does_not_reset :
  publisher_returns Scenario.os_no_curl Scenario.playing (Scenario.bytes_of "PNG")
    (L "Error: CreateProcess failed with code 2") /\
  g_lastTrackProcessed (final (parseTrack Scenario.os_no_curl false Scenario.playing))
    <> no_track /\
  emitted (parseTrack Scenario.os_ok false
             (final (parseTrack Scenario.os_no_curl false Scenario.playing)))
    = [isParsing_write true;
       duplicate_line Scenario.os_ok (candidate (Scenario.song_a (Some Scenario.png)));
       isParsing_write false].
Proof.
  split; [by vm_compute|]. split; [vm_compute; discriminate | by vm_compute].
Qed.

(** The upload answers "a", NUL, "b": the claim C10 as stated fails, the
    result passes the test and what is stored is "a", not the result. *)
Lemma nul_cuts_stored_url :
  publisher_returns Scenario.os_nul Scenario.playing (Scenario.bytes_of "PNG")
    [97; 0; 98]%N /\
  ([97; 0; 98]%N <> [] /\ ~ contains [97; 0; 98]%N (L "Error:")
   /\ ~ contains [97; 0; 98]%N (L "Exception:")) /\
  coverArtUrl (g_lastTrackProcessed
                 (final (parseTrack Scenario.os_nul false Scenario.playing)))
    = [97]%N /\
  coverArtUrl (g_lastTrackProcessed
                 (final (parseTrack Scenario.os_nul false Scenario.playing)))
    <> [97; 0; 98]%N.
Proof.
  split; [by vm_compute|]. split.
  { split; [done|]. split; apply find_npos; by vm_compute. }
  split; [by vm_compute | vm_compute; discriminate].
Qed.

(** C1 at work: "Song A" has been reported and is announced again. *)
Lemma duplicate_run_ignored_witness :
  final (parseTrack Scenario.os_ok false Scenario.reported) = Scenario.reported.
Proof.
  apply (duplicate_run_ignored Scenario.os_ok Scenario.reported (Scenario.song_a None)).
  - reflexivity.
  - apply tidal_is_target.
  - split; reflexivity.
Defined.

(** C2 at work: a notification arrives while a run is in flight. *)
Lemma busy_run_ignored_witness :
  final (parseTrack Scenario.os_ok false Scenario.playing_in_flight)
    = Scenario.playing_in_flight.
Proof.
  apply (busy_run_ignored Scenario.os_ok Scenario.playing_in_flight). reflexivity.
Defined.

(** C3, as amended, at work: "Force Update" on the track already reported. *)
Lemma forced_run_reports_witness :
  exists track,
    title track = L "Song A" /\
    In (UpdateRichPresence (activity_of Scenario.os_ok track))
       (emitted (parseTrack Scenario.os_ok true Scenario.reported)) /\
    g_lastTrackProcessed (final (parseTrack Scenario.os_ok true Scenario.reported))
      = track.
Proof.
  destruct (forced_run_reports Scenario.os_ok Scenario.reported (Scenario.song_a None))
    as (track & Ht & _ & _ & Hin & _ & Hc).
  - apply tidal_is_target.
  - reflexivity.
  - exists track. split; [exact Ht|]. split; [exact Hin | exact Hc].
Defined.

(** A run of the pipeline is overtaken by "Force Update": the claim C4 as
    stated fails.  The run gets past the guard and is suspended with the
    flag set; the forced run ends meanwhile and leaves the flag clear; so
    the next notification, which arrives while the first run waits for the
    thumbnail, is not turned away but enters the guarded scope itself. *)
Lemma forced_overlap_clears_flag :
  passes_guard false Scenario.playing /\
  g_isParsing (set_isParsing true Scenario.playing) = true /\
  g_isParsing (Stage.overlap await_TryGetMediaPropertiesAsync
                 (set_isParsing true Scenario.playing)).1 = false /\
  emitted (parseTrack_among Stage.os_copy_fails Stage.overlap false Scenario.playing)
    = [isParsing_write true;
       (* Force Update, from its entry to its exit *)
       isParsing_write true;
       parse_failure_line Stage.os_copy_fails Scenario.E_FAIL;
       isParsing_write false;
       (* the notification *)
       isParsing_write true;
       parse_failure_line Stage.os_copy_fails Scenario.E_FAIL;
       isParsing_write false;
       (* the rest of the first run *)
       parse_failure_line Stage.os_copy_fails Scenario.E_FAIL;
       isParsing_write false].
Proof.
  split; [by right|]. split; [reflexivity|]. split; by vm_compute.
Qed.

(** C4, as amended, at work: a notification arrives at every suspension of
    a run, with whatever answers of the system, and is turned away each
    time. *)
Lemma guard_held_witness :
  parseTrack_among Scenario.os_ok (Stage.notified Scenario.os_no_curl) false
    Scenario.playing
  = parseTrack_among Scenario.os_ok Stage.turned_away false Scenario.playing.
Proof.
  destruct (guard_held Scenario.os_ok Stage.turned_away false Scenario.playing)
    as (H & _).
  - right. reflexivity.
  - apply H.
    + intros a st Hst. exact Hst.
    + intros a st Hst. unfold Stage.notified, Stage.turned_away, arrival.
      rewrite parseTrack_busy by exact Hst. reflexivity.
Defined.

(** C5 at work: the media properties cannot be fetched. *)
Lemma fetch_failure_contained_witness :
  g_lastTrackProcessed (final (parseTrack Scenario.os_ok false Scenario.unfetchable))
    = no_track.
Proof.
  apply (fetch_failure_contained Scenario.os_ok false Scenario.unfetchable
           Scenario.E_FAIL).
  - apply idle_passes.
  - apply tidal_is_target.
Defined.

(** C6, as amended, at work: curl.exe cannot be spawned. *)
Lemma upload_failure_keeps_track_witness :
  g_lastTrackProcessed (final (parseTrack Scenario.os_no_curl false Scenario.playing))
    = candidate (Scenario.song_a (Some Scenario.png)).
Proof.
  apply (upload_failure_keeps_track Scenario.os_no_curl false Scenario.playing
           (Scenario.song_a (Some Scenario.png)) (Scenario.bytes_of "PNG")
           (L "Error: CreateProcess failed with code 2")).
  - apply idle_passes.
  - apply tidal_is_target.
  - apply song_a_is_new.
  - apply png_bytes.
  - by vm_compute.
  - reflexivity.
Defined.

(** C7 at work: the upload answers "Error: spawn failed". *)
Lemma upload_failure_not_fatal_witness :
  g_lastTrackProcessed (final (parseTrack Scenario.os_refused false Scenario.playing))
    = candidate (Scenario.song_a (Some Scenario.png)).
Proof.
  apply (upload_failure_not_fatal Scenario.os_refused false Scenario.playing
           (Scenario.song_a (Some Scenario.png)) (Scenario.bytes_of "PNG")
           (L "Error: spawn failed")).
  - apply idle_passes.
  - apply tidal_is_target.
  - apply song_a_is_new.
  - apply png_bytes.
  - by vm_compute.
  - reflexivity.
Defined.

(** C8 at work: the current session belongs to another player. *)
Lemma no_target_session_clears_witness :
  richPresence (final (parseTrack Scenario.os_ok false
                         (Scenario.idle (Some Scenario.spotify)))) = None.
Proof.
  apply (no_target_session_clears Scenario.os_ok false
           (Scenario.idle (Some Scenario.spotify))).
  - apply idle_passes.
  - right. exists Scenario.spotify, (L "Spotify.exe!App").
    split; [reflexivity|]. split; [reflexivity|].
    apply find_npos. by vm_compute.
Defined.

(** C10, as amended, at work: the upload answers with a URL and a newline. *)
Lemma upload_result_stored_witness :
  coverArtUrl (g_lastTrackProcessed
                 (final (parseTrack Scenario.os_ok false Scenario.playing)))
    = L "https://0x0.st/abc.png".
Proof.
  destruct (upload_result_stored Scenario.os_ok false Scenario.playing
              (Scenario.song_a (Some Scenario.png)) (Scenario.bytes_of "PNG")
              (L "https://0x0.st/abc.png")) as (H & _).
  - apply idle_passes.
  - apply tidal_is_target.
  - apply song_a_is_new.
  - apply png_bytes.
  - by vm_compute.
  - rewrite H; [by vm_compute|].
    split; [done|]. split; apply find_npos; by vm_compute.
Defined.

(* ===================================================================== *)
(** ** Further properties of the publisher *)
(* ===================================================================== *)

(** One [pop_eol]: either the last code unit ended a line and is dropped, or
    nothing changes and the text does not end in one. *)
Lemma pop_eol_spec w :
  (exists c, is_eol c /\ w = pop_eol w ++ [c]) \/
  (pop_eol w = w /\ forall c, last w = Some c -> ~ is_eol c).
Proof.
  unfold pop_eol, is_eol. destruct w as [|a w] using rev_ind; [right; by split|].
  rewrite last_snoc.
  destruct (bool_decide (a = 10%N) || bool_decide (a = 13%N)) eqn:E.
  - left. exists a. rewrite removelast_last. split; [|done].
    apply orb_true_iff in E as [E|E]; apply bool_decide_eq_true in E; tauto.
  - right. split; [done|]. intros c [= <-].
    apply orb_false_iff in E as [E1 E2].
    apply bool_decide_eq_false in E1, E2. tauto.
Qed.

(** X1.  What the publisher drops from the end of the child's output is at
    most two code units, each a line feed or a carriage return, and it stops
    short of two only at a code unit that is neither (or at the start of the
    text). *)
Theorem trailing_newlines_dropped w :
  exists tail,
    w = pop_eol (pop_eol w) ++ tail /\
    (length tail <= 2)%nat /\
    Forall is_eol tail /\
    ((length tail < 2)%nat ->
     forall c, last (pop_eol (pop_eol w)) = Some c -> ~ is_eol c).
Proof.
  destruct (pop_eol_spec w) as [(c2 & Hc2 & Hw) | [Hw Hlast]].
  - destruct (pop_eol_spec (pop_eol w)) as [(c1 & Hc1 & Hw1) | [Hw1 Hlast1]].
    + exists [c1; c2]. split_and!.
      * rewrite Hw at 1. rewrite Hw1 at 1. by rewrite <- app_assoc.
      * done.
      * by rewrite !Forall_cons, Forall_nil.
      * simpl. lia.
    + exists [c2]. rewrite Hw1. split_and!.
      * done.
      * simpl. lia.
      * by rewrite !Forall_cons, Forall_nil.
      * intros _. exact Hlast1.
  - exists []. rewrite !Hw, app_nil_r. split_and!.
    + done.
    + simpl. lia.
    + constructor.
    + intros _. exact Hlast.
Qed.

Lemma append_empty_r (s : string) : s +:+ EmptyString = s.
Proof.
  induction s as [|a s IH]; [done|].
  change (String a (s +:+ EmptyString) = String a s). by rewrite IH.
Qed.

Lemma append_assoc (a b c : string) : (a +:+ b) +:+ c = a +:+ (b +:+ c).
Proof.
  induction a as [|x a IH]; [done|].
  change (String x ((a +:+ b) +:+ c) = String x (a +:+ (b +:+ c))). by rewrite IH.
Qed.

(** X2.  The read loop gathers what the pipe delivers up to the first empty
    delivery, in order, and ignores whatever would follow it. *)
Theorem ReadFile_loop_gathers reads ignored output :
  Forall (fun chBuf => chBuf <> EmptyString) reads ->
  ReadFile_loop reads output = output +:+ String.concat EmptyString reads /\
  ReadFile_loop (reads ++ EmptyString :: ignored) output
    = ReadFile_loop reads output.
Proof.
  intros H. revert output. induction H as [|chBuf reads Hne _ IH]; intros output.
  - cbn [ReadFile_loop app String.concat]. by rewrite append_empty_r.
  - destruct chBuf as [|a chBuf]; [done|].
    cbn [ReadFile_loop app]. destruct (IH (output +:+ String a chBuf)) as [-> ->].
    split; [|done]. rewrite append_assoc. f_equal.
    destruct reads as [|r reads]; cbn [String.concat].
    + by rewrite append_empty_r.
    + reflexivity.
Qed.

Lemma ReadFile_loop_gathers_witness :
  ReadFile_loop ["ab"; "c"; ""; "d"]%string EmptyString = "abc"%string.
Proof.
  destruct (ReadFile_loop_gathers ["ab"; "c"]%string ["d"%string] EmptyString)
    as [H1 H2].
  - repeat constructor; discriminate.
  - cbn [app] in H2. rewrite H2, H1. reflexivity.
Defined.

(** [L] of a concatenation. *)
Lemma L_append (a b : string) : L (a +:+ b) = L a ++ L b.
Proof.
  unfold L. induction a as [|x a IH]; [done|].
  change (Ascii.N_of_ascii x :: map Ascii.N_of_ascii
            (String.list_ascii_of_string (a +:+ b))
          = Ascii.N_of_ascii x :: map Ascii.N_of_ascii
              (String.list_ascii_of_string a)
            ++ map Ascii.N_of_ascii (String.list_ascii_of_string b)).
  by rewrite IH.
Qed.

Lemma append_nonempty a s b : String a s +:+ b <> EmptyString.
Proof. change (String a (s +:+ b) <> EmptyString). discriminate. Qed.

Lemma starts_with_app p rest : starts_with p (p ++ rest) = true.
Proof. apply starts_with_spec. by exists rest. Qed.

(** Dropping a trailing code unit from a text longer than [p] keeps [p] at
    its start. *)
Lemma pop_eol_keeps_prefix p w :
  starts_with p w = true -> (length p < length w)%nat ->
  starts_with p (pop_eol w) = true /\ (length w <= S (length (pop_eol w)))%nat.
Proof.
  intros Hp Hlen. destruct (pop_eol_spec w) as [(c & _ & Hw) | [-> _]];
    [|split; [done | lia]].
  apply starts_with_spec in Hp as [rest Hp]. rewrite Hw in Hp.
  assert (Hl : length w = S (length (pop_eol w))).
  { rewrite Hw at 1. rewrite length_app. simpl. lia. }
  split; [|lia].
  destruct rest as [|r rest _] using rev_ind.
  - apply (f_equal length) in Hp. rewrite !length_app in Hp. simpl in Hp. lia.
  - rewrite app_assoc in Hp. apply app_inj_tail in Hp as [-> _].
    apply starts_with_app.
Qed.

(** The publisher's result when every step before the spawn succeeds. *)
Lemma UploadCoverArtAsync_spawned os binaryData st tempPath spawn :
  setup_succeeds os tempPath spawn ->
  UploadCoverArtAsync os binaryData st =
    mkRes
      (CoReturn (pop_eol (pop_eol (s2ws os
         match spawn with
         | inr reads => ReadFile_loop reads EmptyString
         | inl last_error => spawn_failure_text last_error
         end))))
      (set_files (delete (scratch_path os tempPath) (files st)) st)
      [GetTempPathW_call; ofstream_open (scratch_path os tempPath) true;
       CreatePipe_call; SetHandleInformation_call;
       CreateProcessW_call (curl_command os tempPath);
       DeleteFileW_call (scratch_path os tempPath)].
Proof.
  intros (Hp & Ho & Hc & Hh & Hs). unfold scratch_path, curl_command in *.
  unfold UploadCoverArtAsync. exec. rewrite Hp. exec. rewrite Ho. exec.
  rewrite Hc, Hh. exec. rewrite Hs, delete_insert_eq.
  destruct st, spawn; reflexivity.
Qed.

(** X3.  When everything up to the spawn succeeds and the child runs, the
    publisher goes through its steps in this order: temp path, scratch file
    written, pipe, handle flags, spawn, scratch file deleted; it returns the
    child's output, converted, less its trailing newline; and it leaves
    nothing at the scratch path. *)
Theorem publisher_success os binaryData st tempPath reads :
  setup_succeeds os tempPath (inr reads) ->
  outcome (UploadCoverArtAsync os binaryData st)
    = CoReturn (pop_eol (pop_eol (s2ws os (ReadFile_loop reads EmptyString)))) /\
  emitted (UploadCoverArtAsync os binaryData st)
    = [GetTempPathW_call; ofstream_open (scratch_path os tempPath) true;
       CreatePipe_call; SetHandleInformation_call;
       CreateProcessW_call (curl_command os tempPath);
       DeleteFileW_call (scratch_path os tempPath)] /\
  files (final (UploadCoverArtAsync os binaryData st)) !! scratch_path os tempPath
    = None.
Proof.
  intros H. rewrite (UploadCoverArtAsync_spawned _ _ _ _ _ H).
  split_and!; [done | done | apply lookup_delete_eq].
Qed.

(** X4.  When a step before the spawn fails (no temp path, scratch file not
    opened, no pipe, handle flags not set), the child is never spawned, and
    the publisher returns a text that starts with "Error:", which the
    pipeline refuses as artwork. *)
Theorem publisher_setup_failure os binaryData st :
  setup_fails os ->
  existsb is_spawn (emitted (UploadCoverArtAsync os binaryData st)) = false /\
  exists uploadedUrl,
    outcome (UploadCoverArtAsync os binaryData st) = CoReturn uploadedUrl /\
    starts_with (L "Error:") uploadedUrl = true /\
    accepted uploadedUrl = false.
Proof.
  unfold setup_fails, scratch_path. intros H.
  unfold UploadCoverArtAsync. exec.
  destruct (GetTempPathW os) as [tempPath|]; exec.
  2: { split; [done|]. by eexists. }
  destruct (ofstream_is_open os _) eqn:Ho; exec.
  2: { split; [done|]. by eexists. }
  destruct (CreatePipe os) eqn:Hc; exec.
  2: { split; [done|]. by eexists. }
  destruct (SetHandleInformation os) eqn:Hh; exec.
  2: { split; [done|]. by eexists. }
  by destruct H as [H | [H | H]].
Qed.

(** X5.  When the spawn itself fails and the conversion renders the error
    text as it is, the publisher's result starts with "Error:" and is
    refused as artwork. *)
Theorem publisher_spawn_failure os binaryData st tempPath last_error :
  setup_succeeds os tempPath (inl last_error) ->
  MultiByteToWideChar os (spawn_failure_text last_error)
    = L (spawn_failure_text last_error) ->
  exists uploadedUrl,
    outcome (UploadCoverArtAsync os binaryData st) = CoReturn uploadedUrl /\
    starts_with (L "Error:") uploadedUrl = true /\
    accepted uploadedUrl = false.
Proof.
  intros H Hconv. rewrite (UploadCoverArtAsync_spawned _ _ _ _ _ H).
  eexists. split; [reflexivity|].
  assert (Hs : s2ws os (spawn_failure_text last_error)
               = L "Error:" ++ L (" CreateProcess failed with code "
                                  +:+ to_string last_error)).
  { transitivity (L (spawn_failure_text last_error));
      [|by rewrite <- L_append].
    rewrite <- Hconv. unfold s2ws.
    destruct (spawn_failure_text last_error) eqn:E; [|done].
    unfold spawn_failure_text in E. by apply append_nonempty in E. }
  rewrite Hs.
  assert (Hstart : starts_with (L "Error:") (pop_eol (pop_eol
            (L "Error:" ++ L (" CreateProcess failed with code "
                              +:+ to_string last_error)))) = true).
  { destruct (pop_eol_keeps_prefix (L "Error:")
                (L "Error:" ++ L (" CreateProcess failed with code "
                                  +:+ to_string last_error))) as [H1 Hl1].
    - apply starts_with_app.
    - rewrite L_append. generalize (L (to_string last_error)). intros digits.
      rewrite !length_app. vm_compute (length (L _)). lia.
    - apply pop_eol_keeps_prefix; [done|]. revert Hl1.
      rewrite L_append. generalize (L (to_string last_error)). intros digits.
      rewrite !length_app. vm_compute (length (L _)). lia. }
  split; [done | by apply error_prefix_refused].
Qed.

(** X6.  The publisher changes none of the program's globals, and of the
    files only the one at the scratch path: every other file is as before,
    and what was at the scratch path, from this call or from before it, is
    gone whenever the file could be opened. *)
Theorem publisher_frame os binaryData st :
  let st' := final (UploadCoverArtAsync os binaryData st) in
  g_isParsing st' = g_isParsing st /\
  g_lastTrackProcessed st' = g_lastTrackProcessed st /\
  g_currentSession st' = g_currentSession st /\
  richPresence st' = richPresence st /\
  match GetTempPathW os with
  | None => files st' = files st
  | Some tempPath =>
      (forall path, path <> scratch_path os tempPath ->
                    files st' !! path = files st !! path) /\
      if ofstream_is_open os (scratch_path os tempPath)
      then files st' !! scratch_path os tempPath = None
      else files st' = files st
  end.
Proof.
  unfold scratch_path. unfold UploadCoverArtAsync. exec.
  destruct (GetTempPathW os) as [tempPath|]; exec; [|done].
  destruct (ofstream_is_open os _) eqn:Ho; exec; [|done].
  destruct (CreatePipe os), (SetHandleInformation os); exec;
    cbn [final files set_files]; rewrite delete_insert_eq; split_and!;
    try done; try apply lookup_delete_eq;
    intros path Hne; by rewrite lookup_delete_ne.
Qed.

(** A tick count in range is its own reading. *)
Lemma int64_id z : - 2 ^ 63 <= z < 2 ^ 63 -> int64 z = z.
Proof. intros H. unfold int64. rewrite Z.mod_small; lia. Qed.

(** X7.  The expiry handed to curl.exe is the time of the spawn in
    milliseconds plus seven minutes, for a clock that is not within seven
    minutes of the largest tick count (there the sum wraps around). *)
Theorem expiry_is_seven_minutes os tempFilePath :
  0 <= clock_spawn os -> clock_spawn os + minutes_7 < 2 ^ 63 ->
  command_of os tempFilePath =
    L "curl.exe -s -F " ++ dquote ++ L "file=@" ++ tempFilePath ++ dquote ++
    L " -F " ++ dquote ++ L "expires=" ++
    to_wstring (clock_spawn os / ticks_per_ms + 7 * 60 * 1000) ++ dquote ++
    L " http://0x0.st".
Proof.
  intros H Hmax. unfold command_of.
  assert (Hm : 0 <= minutes_7) by done.
  rewrite (int64_id (clock_spawn os)) by lia.
  rewrite int64_id by lia.
  unfold minutes_7, ticks_per_ms in *.
  rewrite Z.quot_div_nonneg by lia.
  by rewrite Z.div_add by done.
Qed.

(* ===================================================================== *)
(** ** Further properties of a pipeline run *)
(* ===================================================================== *)

Lemma c_str_is_nul_free w : nul_free (c_str w).
Proof.
  unfold nul_free. induction w as [|c w IH]; simpl; [constructor|].
  destruct (bool_decide (c = 0%N)) eqn:E; [constructor|].
  apply bool_decide_eq_false in E. by constructor.
Qed.

Lemma scratch_files_logs evs :
  forallb is_log evs = true -> scratch_files evs = [].
Proof.
  unfold scratch_files. induction evs as [|e evs IH]; [done|].
  intros H. simpl in H. apply andb_true_iff in H as [He Hevs].
  destruct e; try discriminate He; by apply IH.
Qed.

(** The publisher, with what it does to the files. *)
Lemma UploadCoverArtAsync_files os binaryData st :
  exists uploadedUrl evs fs,
    UploadCoverArtAsync os binaryData st
      = mkRes (CoReturn uploadedUrl) (set_files fs st) evs /\
    forallb is_upload_step evs = true /\
    Forall (fun path => fs !! path = None) (scratch_files evs) /\
    (forall path, fs !! path = None \/ fs !! path = files st !! path).
Proof.
  assert (Hst : st = set_files (files st) st) by (destruct st; reflexivity).
  unfold UploadCoverArtAsync. exec.
  destruct (GetTempPathW os) as [tempPath|]; exec.
  2: { eexists _, _, (files st). split; [by rewrite Hst at 1|].
       split_and!; [done | constructor | by right]. }
  destruct (ofstream_is_open os _) eqn:Hopen; exec.
  2: { eexists _, _, (files st). split; [by rewrite Hst at 1|].
       split_and!; [done | constructor | by right]. }
  destruct (CreatePipe os), (SetHandleInformation os); exec;
    rewrite delete_insert_eq; eexists _, _, _; (split; [reflexivity|]);
    (split_and!; [done | repeat constructor; apply lookup_delete_eq |]);
    intros path; destruct (decide (path = c_str (tempFilePath_of os tempPath)))
      as [->|Hne];
    [left; apply lookup_delete_eq | right; by apply lookup_delete_ne
    |left; apply lookup_delete_eq | right; by apply lookup_delete_ne
    |left; apply lookup_delete_eq | right; by apply lookup_delete_ne
    |left; apply lookup_delete_eq | right; by apply lookup_delete_ne].
Qed.

(** The thumbnail block on the paths without bytes. *)
Lemma cover_art_no_artwork {R} os mp lines st :
  no_artwork os mp lines ->
  cover_art (R:=R) os (Thumbnail mp) (candidate mp) st
    = mkRes (Normal (candidate mp)) st lines.
Proof.
  destruct 1 as [Ht | t Ht Ho | t Ht Ho | t stream Ht Ho Hs Hc
                | t stream ms n Ht Ho Hs Hc Hm Hl Hn
                | t stream ms n Ht Ho Hs Hc Hm Hl Hn Hr];
    unfold cover_art, cover_art_among; rewrite Ht; exec; try reflexivity; rewrite Ho; exec;
    try reflexivity; (destruct stream as [|b stream]; [done|]); exec;
    rewrite Hc; exec; try reflexivity.
  - rewrite bool_decide_eq_true_2 by (destruct ms; [done | simpl; lia]).
    rewrite Hl. exec. by rewrite bool_decide_eq_false_2 by lia.
  - rewrite bool_decide_eq_true_2 by (destruct ms; [done | simpl; lia]).
    rewrite Hl. exec. rewrite bool_decide_eq_true_2 by done. by rewrite Hr.
Qed.

(** The thumbnail block when its plumbing fails: the exception leaves it
    before anything is written. *)
Lemma cover_art_error {R} os mp track st ex :
  thumbnail_error os mp = Some ex ->
  cover_art (R:=R) os (Thumbnail mp) track st = mkRes (Throw ex) st [].
Proof.
  unfold cover_art, cover_art_among, thumbnail_error. exec.
  destruct (Thumbnail mp) as [thumbnail|]; exec; [|discriminate].
  destruct (OpenReadAsync thumbnail) as [e|[[|b stream]|]]; exec;
    try discriminate; [congruence|].
  destruct (CopyAsync os _) as [e|ms]; exec; [congruence|].
  destruct (bool_decide (0 < length ms)%nat); exec; [|discriminate].
  destruct (LoadAsync os _ _) as [e|n]; exec; [congruence|].
  destruct (bool_decide (0 < n)); exec; [|discriminate].
  destruct (ReadBuffer os _ _) as [e|buffer]; exec; [congruence|discriminate].
Qed.

(** A path of the thumbnail block that does not reach the publisher. *)
Ltac simple_leaf Hst :=
  eexists _, _, _; split; [by rewrite Hst at 1|];
  split_and!;
  first [ done | by right | by left | by (simpl; constructor)
        | by (simpl; intuition discriminate) ].

(** The thumbnail block in general. *)
Lemma cover_art_shape {R} os thumbnail track st :
  exists o fs evs,
    cover_art (R:=R) os thumbnail track st = mkRes o (set_files fs st) evs /\
    forallb (fun e => is_log e || is_upload_step e) evs = true /\
    ~ In empty_vector_line evs /\
    Forall (fun path => fs !! path = None) (scratch_files evs) /\
    (forall path, fs !! path = None \/ fs !! path = files st !! path) /\
    match o with
    | Normal track' =>
        track' = track \/ exists u, track' = with_coverArtUrl track (c_str u)
    | CoReturn _ => False
    | Throw _ => fs = files st /\ evs = []
    end.
Proof.
  assert (Hst : st = set_files (files st) st) by (destruct st; reflexivity).
  unfold cover_art, cover_art_among. exec.
  destruct thumbnail as [thumbnail|]; exec; [|by simple_leaf Hst].
  destruct (OpenReadAsync thumbnail) as [e|[[|b stream]|]]; exec;
    try by simple_leaf Hst.
  destruct (CopyAsync os _) as [e|ms]; exec; [by simple_leaf Hst|].
  destruct (bool_decide (0 < length ms)%nat) eqn:Hms; exec;
    [|by simple_leaf Hst].
  destruct (LoadAsync os _ _) as [e|n]; exec; [by simple_leaf Hst|].
  destruct (bool_decide (0 < n)); exec; [|by simple_leaf Hst].
  destruct (ReadBuffer os _ _) as [e|buffer]; exec; [by simple_leaf Hst|].
  destruct (bool_decide (0 < length buffer)%nat) eqn:Hb; exec;
    [|by simple_leaf Hst].
  rewrite BufferToVector_id, Hb.
  destruct (UploadCoverArtAsync_files os buffer st)
    as (u & evs & fs & -> & Hevs & Hscratch & Hfs).
  rewrite store_uploadedUrl_eq.
  assert (Hup : forall e, In e evs -> is_upload_step e = true).
  { by apply forallb_forall. }
  destruct (accepted u); exec; eexists _, fs, _; (split; [reflexivity|]);
    split_and!; try done.
  - cbn [forallb is_log is_upload_step orb andb]. rewrite forallb_app.
    apply andb_true_iff. split; [|done].
    apply forallb_forall. intros e He. rewrite (Hup e He). apply orb_true_r.
  - intros [G|G]; [discriminate G|]. apply in_app_iff in G as [G|[G|[]]].
    + by apply Hup in G.
    + discriminate G.
  - unfold scratch_files in *. cbn [omap list_omap]. rewrite omap_app.
    cbn [omap list_omap]. by rewrite app_nil_r.
  - right. by exists u.
  - cbn [forallb is_log is_upload_step orb andb]. rewrite forallb_app.
    apply andb_true_iff. split; [|by destruct u].
    apply forallb_forall. intros e He. rewrite (Hup e He). apply orb_true_r.
  - intros [G|G]; [discriminate G|]. apply in_app_iff in G as [G|G].
    + by apply Hup in G.
    + destruct u; [done|]. destruct G as [G|[]]. injection G. intros.
      discriminate.
  - unfold scratch_files in *. cbn [omap list_omap]. rewrite omap_app.
    destruct u; cbn [omap list_omap]; by rewrite app_nil_r.
  - by left.
Qed.

(** The ways a run that got past the entry guard can go: presence cleared,
    exception caught, duplicate ignored, track reported. *)
Lemma parseTrack_cases os force st :
  passes_guard force st ->
  (exists line,
     parseTrack os force st =
       guarded (set_lastTrackProcessed no_track
                  (set_richPresence None (set_isParsing true st)))
         [cout line; ClearRichPresence])
  \/ (exists ex,
        parseTrack os force st =
          guarded (set_lastTrackProcessed no_track (set_isParsing true st))
            [parse_failure_line os ex])
  \/ (exists mp,
        force = false /\ target_session st (inr mp) /\ duplicate st mp /\
        parseTrack os force st =
          guarded (set_isParsing true st) [duplicate_line os (candidate mp)])
  \/ (exists mp track fs evs,
        target_session st (inr mp) /\ fresh force st mp /\
        parseTrack os force st =
          guarded (set_lastTrackProcessed track
                     (set_richPresence (Some (activity_of os track))
                        (set_files fs (set_isParsing true st))))
            (evs ++ [UpdateRichPresence (activity_of os track)]) /\
        forallb (fun e => is_log e || is_upload_step e) evs = true /\
        ~ In empty_vector_line evs /\
        Forall (fun path => fs !! path = None) (scratch_files evs) /\
        (forall path, fs !! path = None \/ fs !! path = files st !! path) /\
        (track = candidate mp
         \/ exists u, track = with_coverArtUrl (candidate mp) (c_str u))).
Proof.
  intros Hg.
  destruct (g_currentSession st) as [session|] eqn:Hs.
  2: { left. rewrite (parseTrack_no_session _ _ _ Hg Hs). by eexists. }
  destruct (SourceAppUserModelId session) as [ex|appId] eqn:Hid.
  { right; left. rewrite (parseTrack_appId_failed _ _ _ _ _ Hg Hs Hid).
    by eexists. }
  destruct (decide (find appId (L "TIDAL") = npos)) as [Hn|Hn].
  { left. apply find_npos in Hn.
    rewrite (parseTrack_not_target _ _ _ _ _ Hg Hs Hid Hn). by eexists. }
  apply find_found in Hn.
  destruct (TryGetMediaPropertiesAsync session) as [ex|mp] eqn:Hf.
  { right; left.
    rewrite (parseTrack_fetch_failed os force st ex Hg) by by exists session, appId.
    by eexists. }
  assert (Ht : target_session st (inr mp)) by by exists session, appId.
  assert (Hd : fresh force st mp \/ (force = false /\ duplicate st mp)).
  { unfold fresh, duplicate. destruct force; [by left; left|].
    destruct (decide (title (candidate mp) = title (g_lastTrackProcessed st)
                      /\ artist (candidate mp) = artist (g_lastTrackProcessed st)));
      [by right | by left; right]. }
  destruct Hd as [Hd | [-> Hd]].
  - rewrite (parseTrack_fresh _ _ _ _ Hg Ht Hd).
    destruct (cover_art_shape (R:=unit) os (Thumbnail mp) (candidate mp)
                (set_isParsing true st))
      as (o & fs & evs & -> & Hevs & Hdead & Hscratch & Hfs & Ho).
    destruct o as [track|v|ex]; [|done|].
    + do 3 right. by exists mp, track, fs, evs.
    + right; left. destruct Ho as [-> ->]. exists ex. by destruct st.
  - destruct Hg as [Hg|Hg]; [done|].
    do 2 right; left. exists mp.
    by rewrite (parseTrack_duplicate _ _ _ Hg Ht Hd).
Qed.

(** The fetch of a session is one answer. *)
Lemma target_session_unique st f1 f2 :
  target_session st f1 -> target_session st f2 -> f1 = f2.
Proof.
  intros (s1 & a1 & Hs1 & _ & _ & <-) (s2 & a2 & Hs2 & _ & _ & <-). congruence.
Qed.

(** X8.  When the thumbnail is missing, null or empty at any step of its
    plumbing, this is no error: the run makes no step of an upload, touches
    no file, reports the track without a large image, and stores it, with an
    empty artwork URL, in the cache. *)
Theorem no_artwork_reported os force st mp lines :
  passes_guard force st -> target_session st (inr mp) -> fresh force st mp ->
  no_artwork os mp lines ->
  outcome (parseTrack os force st) = CoReturn tt /\
  emitted (parseTrack os force st)
    = isParsing_write true :: lines
      ++ [UpdateRichPresence (activity_of os (candidate mp));
          isParsing_write false] /\
  (length lines <= 1)%nat /\
  existsb is_upload_step (emitted (parseTrack os force st)) = false /\
  LargeImage (Assets (activity_of os (candidate mp))) = None /\
  richPresence (final (parseTrack os force st))
    = Some (activity_of os (candidate mp)) /\
  g_lastTrackProcessed (final (parseTrack os force st)) = candidate mp /\
  files (final (parseTrack os force st)) = files st.
Proof.
  intros Hg Ht Hf Hn.
  rewrite (parseTrack_fresh _ _ _ _ Hg Ht Hf), (cover_art_no_artwork _ _ _ _ Hn).
  unfold guarded. cbn [outcome emitted final]. tidy.
  split_and!; try done; destruct Hn; simpl; done || lia.
Qed.

(** X9.  When a step of the thumbnail plumbing throws, the run is given up
    like one whose metadata fetch failed: the error line is all it writes,
    the cache is emptied, no presence call and no step of an upload occurs,
    and the presence and the files are left as they were. *)
Theorem thumbnail_failure_aborts os force st mp ex :
  passes_guard force st -> target_session st (inr mp) -> fresh force st mp ->
  thumbnail_error os mp = Some ex ->
  outcome (parseTrack os force st) = CoReturn tt /\
  emitted (parseTrack os force st)
    = [isParsing_write true; parse_failure_line os ex; isParsing_write false] /\
  g_lastTrackProcessed (final (parseTrack os force st)) = no_track /\
  richPresence (final (parseTrack os force st)) = richPresence st /\
  files (final (parseTrack os force st)) = files st.
Proof.
  intros Hg Ht Hf He.
  rewrite (parseTrack_fresh _ _ _ _ Hg Ht Hf), (cover_art_error _ _ _ _ _ He).
  by split_and!.
Qed.

(** X10.  When reading the application id of the session throws, the run
    writes the error line, empties the cache and ends: nothing is fetched,
    no presence call occurs and the presence is left as it was. *)
Theorem appId_failure_contained os force st session ex :
  passes_guard force st -> g_currentSession st = Some session ->
  SourceAppUserModelId session = inl ex ->
  outcome (parseTrack os force st) = CoReturn tt /\
  emitted (parseTrack os force st)
    = [isParsing_write true; parse_failure_line os ex; isParsing_write false] /\
  g_lastTrackProcessed (final (parseTrack os force st)) = no_track /\
  richPresence (final (parseTrack os force st)) = richPresence st /\
  files (final (parseTrack os force st)) = files st.
Proof.
  intros Hg Hs Hid. rewrite (parseTrack_appId_failed _ _ _ _ _ Hg Hs Hid).
  by split_and!.
Qed.

(** Every invocation is turned away at the guard or gets past it. *)
Lemma guard_decides force st :
  (force = false /\ g_isParsing st = true) \/ passes_guard force st.
Proof.
  destruct force; [by right; left|].
  destruct (g_isParsing st) eqn:E; [by left | by right; right].
Qed.

(** X11.  Whatever the operating system answers, no exception leaves a
    pipeline run, the run leaves the flag clear unless it was turned away
    at the guard, and it never changes which session is current. *)
Theorem run_always_returns os force st :
  outcome (parseTrack os force st) = CoReturn tt /\
  g_currentSession (final (parseTrack os force st)) = g_currentSession st /\
  (g_isParsing (final (parseTrack os force st)) = true ->
   force = false /\ g_isParsing st = true).
Proof.
  destruct (guard_decides force st) as [[-> Hp] | Hg].
  - rewrite (parseTrack_busy _ _ Hp). by split_and!.
  - destruct (parseTrack_cases os force st Hg)
      as [(line & ->) | [(ex & ->) | [(mp & _ & _ & _ & ->)
         | (mp & track & fs & evs & _ & _ & -> & _)]]]; by split_and!.
Qed.

(** X12.  The texts of the cache never contain a NUL code unit: a run that
    starts with such a cache ends with such a cache. *)
Theorem cache_stays_nul_free os force st :
  track_nul_free (g_lastTrackProcessed st) ->
  track_nul_free (g_lastTrackProcessed (final (parseTrack os force st))).
Proof.
  intros Hc.
  assert (Hno : track_nul_free no_track) by (repeat split; constructor).
  assert (Hcand : forall mp, track_nul_free (candidate mp)).
  { intros mp. repeat split; try apply c_str_is_nul_free. constructor. }
  destruct (guard_decides force st) as [[-> Hp] | Hg].
  - by rewrite (parseTrack_busy _ _ Hp).
  - destruct (parseTrack_cases os force st Hg)
      as [(line & ->) | [(ex & ->) | [(mp & _ & _ & _ & ->)
         | (mp & track & fs & evs & _ & _ & -> & _ & _ & _ & _ & Htrack)]]];
      try done.
    destruct Htrack as [-> | (u & ->)]; [apply Hcand|].
    destruct (Hcand mp) as (? & ? & ? & _).
    repeat split; try done. apply c_str_is_nul_free.
Qed.

Lemma cache_stays_nul_free_witness :
  track_nul_free
    (g_lastTrackProcessed (final (parseTrack Scenario.os_nul false Scenario.playing))).
Proof.
  apply (cache_stays_nul_free Scenario.os_nul false Scenario.playing).
  repeat split; constructor.
Defined.

(** What the thumbnail block emits holds no presence call and opens no
    file but through the publisher. *)
Lemma quiet_no_presence evs :
  forallb (fun e => is_log e || is_upload_step e) evs = true ->
  List.filter is_presence_call evs = [] /\ ~ In ClearRichPresence evs.
Proof.
  induction evs as [|e evs IH]; [by split; [|intros []]|].
  simpl. rewrite andb_true_iff. intros [He Hevs]. destruct (IH Hevs) as [IH1 IH2].
  split.
  - by destruct e.
  - intros [->|G]; [discriminate He | by apply IH2].
Qed.

Lemma scratch_files_run evs e :
  is_presence_call e = true ->
  scratch_files (isParsing_write true :: evs ++ [e; isParsing_write false])
    = scratch_files evs.
Proof.
  intros He. unfold scratch_files. cbn [omap list_omap]. rewrite omap_app.
  destruct e; try discriminate He; cbn [omap list_omap]; by rewrite app_nil_r.
Qed.

(** X13.  A run makes at most one presence call, and the presence follows
    the cache: after an update the presence shows exactly the track left in
    the cache, after a clear the presence and the cache are both empty, and
    without a call the presence is what it was. *)
Theorem presence_follows_cache os force st :
  (length (List.filter is_presence_call (emitted (parseTrack os force st))) <= 1)%nat /\
  (existsb is_presence_update (emitted (parseTrack os force st)) = true ->
   richPresence (final (parseTrack os force st))
     = Some (activity_of os (g_lastTrackProcessed (final (parseTrack os force st))))) /\
  (In ClearRichPresence (emitted (parseTrack os force st)) ->
   richPresence (final (parseTrack os force st)) = None /\
   g_lastTrackProcessed (final (parseTrack os force st)) = no_track) /\
  (existsb is_presence_call (emitted (parseTrack os force st)) = false ->
   richPresence (final (parseTrack os force st)) = richPresence st).
Proof.
  destruct (guard_decides force st) as [[-> Hp] | Hg].
  { rewrite (parseTrack_busy _ _ Hp).
    split_and!; first [done | simpl; lia | simpl; intuition discriminate]. }
  destruct (parseTrack_cases os force st Hg)
    as [(line & ->) | [(ex & ->) | [(mp & _ & _ & _ & ->)
       | (mp & track & fs & evs & _ & _ & -> & Hq & _)]]].
  1-3: split_and!; first [done | simpl; lia | simpl; intuition discriminate].
  - destruct (quiet_no_presence _ Hq) as [Hf Hc].
    unfold guarded. cbn [emitted final richPresence g_lastTrackProcessed
                           set_isParsing set_lastTrackProcessed set_richPresence].
    split_and!.
    + cbn [List.filter is_presence_call]. rewrite !List.filter_app, Hf. done.
    + done.
    + intros [G|G]; [discriminate G|].
      rewrite !in_app_iff in G. simpl in G. intuition discriminate.
    + cbn [existsb is_presence_call orb]. rewrite !existsb_app.
      cbn [existsb is_presence_call orb]. rewrite orb_true_r. discriminate.
Qed.

(** X14.  After a run that got past the duplicate check and whose thumbnail
    plumbing threw nothing, the next non-forced run over the same metadata
    is ignored as a duplicate, whatever the operating system answers then:
    it writes the duplicate line and leaves the state as it found it. *)
Theorem repeat_is_duplicate os force st mp os' :
  passes_guard force st -> target_session st (inr mp) -> fresh force st mp ->
  thumbnail_error os mp = None ->
  emitted (parseTrack os' false (final (parseTrack os force st)))
    = [isParsing_write true; duplicate_line os' (candidate mp);
       isParsing_write false] /\
  final (parseTrack os' false (final (parseTrack os force st)))
    = final (parseTrack os force st).
Proof.
  intros Hg Ht Hf He.
  rewrite (parseTrack_fresh _ _ _ _ Hg Ht Hf).
  destruct (cover_art (R:=unit) os (Thumbnail mp) (candidate mp)
              (set_isParsing true st)) as [o st1 evs1] eqn:Hc.
  destruct (cover_art_shape (R:=unit) os (Thumbnail mp) (candidate mp)
              (set_isParsing true st)) as (o' & fs & evs & Hc' & _ & _ & _ & _ & Ho).
  rewrite Hc in Hc'. injection Hc' as <- -> <-.
  destruct o as [track|v|ex]; [|done|].
  2: { apply cover_art_throws in Hc. congruence. }
  unfold guarded. cbn [final].
  set (st2 := set_isParsing false _).
  assert (Hg2 : g_isParsing st2 = false) by reflexivity.
  assert (Ht2 : target_session st2 (inr mp)) by exact Ht.
  assert (Hd2 : duplicate st2 mp).
  { by destruct Ho as [-> | (u & ->)]. }
  rewrite (parseTrack_duplicate _ _ _ Hg2 Ht2 Hd2). unfold guarded.
  cbn [emitted final app]. split; [reflexivity|].
  by apply set_isParsing_restore.
Qed.

(** X15.  After a run given up because the thumbnail plumbing threw, the
    track is not remembered: the next non-forced run over the same metadata
    (with a title or an artist) is not a duplicate, and reports the track
    when its own plumbing throws nothing. *)
Theorem failed_run_is_retried os force st mp ex os' :
  passes_guard force st -> target_session st (inr mp) -> fresh force st mp ->
  thumbnail_error os mp = Some ex ->
  title (candidate mp) <> [] \/ artist (candidate mp) <> [] ->
  thumbnail_error os' mp = None ->
  existsb is_presence_update
    (emitted (parseTrack os' false (final (parseTrack os force st)))) = true /\
  title (g_lastTrackProcessed
           (final (parseTrack os' false (final (parseTrack os force st)))))
    = title (candidate mp).
Proof.
  intros Hg Ht Hf He Hname He'.
  rewrite (parseTrack_fresh _ _ _ _ Hg Ht Hf), (cover_art_error _ _ _ _ _ He).
  unfold guarded. cbn [final].
  set (st2 := set_isParsing false _).
  assert (Hg2 : passes_guard false st2) by by right.
  assert (Ht2 : target_session st2 (inr mp)) by exact Ht.
  assert (Hf2 : fresh false st2 mp).
  { right. intros [H1 H2]. simpl in H1, H2. destruct Hname as [H|H]; by apply H. }
  rewrite (parseTrack_fresh _ _ _ _ Hg2 Ht2 Hf2).
  destruct (cover_art (R:=unit) os' (Thumbnail mp) (candidate mp)
              (set_isParsing true st2)) as [o st3 evs3] eqn:Hc.
  destruct (cover_art_shape (R:=unit) os' (Thumbnail mp) (candidate mp)
              (set_isParsing true st2)) as (o' & fs & evs & Hc' & _ & _ & _ & _ & Ho).
  rewrite Hc in Hc'. injection Hc' as <- -> <-.
  destruct o as [track|v|ex']; [|done|].
  2: { apply cover_art_throws in Hc. congruence. }
  unfold guarded. cbn [emitted final g_lastTrackProcessed set_isParsing
                        set_lastTrackProcessed]. split.
  - cbn [existsb]. rewrite !existsb_app. cbn [existsb is_presence_update].
    by rewrite !orb_true_r.
  - by destruct Ho as [-> | (u & ->)].
Qed.

(** X16.  A run leaves no scratch file behind and creates no file: every
    file it opened for writing is gone at its end, and every file there at
    its end was there, unchanged, at its start. *)
Theorem run_leaves_no_file os force st :
  Forall (fun path => files (final (parseTrack os force st)) !! path = None)
         (scratch_files (emitted (parseTrack os force st))) /\
  forall path,
    files (final (parseTrack os force st)) !! path = None \/
    files (final (parseTrack os force st)) !! path = files st !! path.
Proof.
  destruct (guard_decides force st) as [[-> Hp] | Hg].
  { rewrite (parseTrack_busy _ _ Hp). split; [constructor | by right]. }
  destruct (parseTrack_cases os force st Hg)
    as [(line & ->) | [(ex & ->) | [(mp & _ & _ & _ & ->)
       | (mp & track & fs & evs & _ & _ & -> & _ & _ & Hs & Hfs & _)]]];
    try (split; [constructor | by right]).
  unfold guarded.
  cbn [emitted final files set_isParsing set_lastTrackProcessed
       set_richPresence set_files].
  rewrite <- app_assoc. cbn [app]. by rewrite scratch_files_run.
Qed.

(** X17.  The branch that reports a 0-size vector out of [BufferToVector]
    is dead: no run ever writes its line. *)
Theorem empty_vector_branch_dead os force st :
  ~ In empty_vector_line (emitted (parseTrack os force st)).
Proof.
  destruct (guard_decides force st) as [[-> Hp] | Hg].
  { rewrite (parseTrack_busy _ _ Hp). simpl. intuition discriminate. }
  destruct (parseTrack_cases os force st Hg)
    as [(line & ->) | [(ex & ->) | [(mp & _ & _ & _ & ->)
       | (mp & track & fs & evs & _ & _ & -> & _ & Hdead & _)]]];
    unfold guarded; cbn [emitted].
  - simpl. intuition discriminate.
  - simpl. intros [G|[G|[G|[]]]]; discriminate G.
  - simpl. intuition discriminate.
  - intros [G|G]; [discriminate G|]. rewrite !in_app_iff in G.
    simpl in G. intuition discriminate.
Qed.

(** X30.  A forced run gets past the guard and clears the flag at its end
    in whatever state it is started, also while another run is in flight:
    the next non-forced invocation is then not turned away, it enters the
    guarded scope although the earlier run may not have ended. *)
Theorem forced_run_unlocks os st os' :
  g_isParsing (final (parseTrack os true st)) = false /\
  exists mid,
    emitted (parseTrack os' false (final (parseTrack os true st)))
      = isParsing_write true :: mid.
Proof.
  destruct (parseTrack_guarded os true st) as (st1 & mid1 & -> & _); [by left|].
  unfold guarded at 1 2. cbn [final]. split; [done|].
  destruct (parseTrack_guarded os' false (set_isParsing false st1))
    as (st2 & mid2 & -> & _); [by right|].
  by eexists.
Qed.

(* ===================================================================== *)
(** ** Properties of the observer *)
(* ===================================================================== *)

(** A run that gets past the duplicate check and whose thumbnail plumbing
    throws nothing reports the track. *)
Lemma parseTrack_reports os force st mp :
  passes_guard force st -> target_session st (inr mp) -> fresh force st mp ->
  thumbnail_error os mp = None ->
  exists track fs evs,
    parseTrack os force st =
      guarded (set_lastTrackProcessed track
                 (set_richPresence (Some (activity_of os track))
                    (set_files fs (set_isParsing true st))))
        (evs ++ [UpdateRichPresence (activity_of os track)]) /\
    title track = title (candidate mp) /\ artist track = artist (candidate mp).
Proof.
  intros Hg Ht Hf He. rewrite (parseTrack_fresh _ _ _ _ Hg Ht Hf).
  destruct (cover_art (R:=unit) os (Thumbnail mp) (candidate mp)
              (set_isParsing true st)) as [o st1 evs1] eqn:Hc.
  destruct (cover_art_shape (R:=unit) os (Thumbnail mp) (candidate mp)
              (set_isParsing true st)) as (o' & fs & evs & Hc' & _ & _ & _ & _ & Ho).
  rewrite Hc in Hc'. injection Hc' as <- -> <-.
  destruct o as [track|v|ex]; [|done|].
  2: { apply cover_art_throws in Hc. congruence. }
  exists track, fs, evs1. split; [done|]. by destruct Ho as [-> | (u & ->)].
Qed.

(** A run never changes which session is current. *)
Lemma parseTrack_keeps_session os force st :
  g_currentSession (final (parseTrack os force st)) = g_currentSession st.
Proof.
  destruct (guard_decides force st) as [[-> Hp] | Hg].
  - by rewrite (parseTrack_busy _ _ Hp).
  - destruct (parseTrack_cases os force st Hg)
      as [(line & ->) | [(ex & ->) | [(mp & _ & _ & _ & ->)
         | (mp & track & fs & evs & _ & _ & -> & _)]]]; done.
Qed.

Lemma in_map_pipeline e evs : In e evs -> In (pipeline e) (map pipeline evs).
Proof. apply in_map. Qed.

Lemma no_shell_presence_call evs :
  existsb is_presence_call evs = false ->
  existsb is_shell_presence_call (map pipeline evs) = false.
Proof.
  induction evs as [|e evs IH]; [done|]. simpl.
  rewrite !orb_false_iff. intros [-> H]. by rewrite IH.
Qed.

(** What the handler of [CurrentSessionChanged] has done when it starts to
    wait: the cache is empty, the session is the new one, and no presence
    call was made. *)
Lemma session_changed_spec next sh :
  globals (session_changed next sh).1
    = set_currentSession next (set_lastTrackProcessed no_track (globals sh)) /\
  handler_on (session_changed next sh).1
    = match next with
      | Some _ => next
      | None => match g_currentSession (globals sh) with
                | Some _ => None
                | None => handler_on sh
                end
      end /\
  existsb is_shell_presence_call (session_changed next sh).2 = false.
Proof.
  unfold session_changed, RegisterMediaPropertiesChangedHandler.
  by destruct next as [session|], (g_currentSession (globals sh)).
Qed.

(** What [CurrentSessionChanged], undisturbed in its wait, hands to the
    run. *)
Lemma CurrentSessionChanged_run os next sh :
  exists sh1,
    globals sh1 = set_currentSession next
                    (set_lastTrackProcessed no_track (globals sh)) /\
    handler_on sh1 = match next with
                     | Some _ => next
                     | None => match g_currentSession (globals sh) with
                               | Some _ => None
                               | None => handler_on sh
                               end
                     end /\
    exists before,
      CurrentSessionChanged undisturbed os next sh
        = run_parseTrack os false sh1 before /\
      existsb is_shell_presence_call before = false.
Proof.
  destruct (session_changed_spec next sh) as (Hgl & Hh & Hq).
  exists (session_changed next sh).1. split; [done|]. split; [done|].
  eexists. split; [reflexivity|].
  cbn [undisturbed snd app]. by rewrite existsb_app, Hq.
Qed.

(** X18.  A change of session empties the cache before the run reads it:
    when the new session is the target application's and its track has a
    title or an artist, the track is reported whatever the cache held, even
    the same track, and the handler is registered on the new session
    (provided no run is in flight and the thumbnail plumbing throws
    nothing). *)
Theorem session_change_reports os session appId mp sh :
  g_isParsing (globals sh) = false ->
  SourceAppUserModelId session = inr appId -> contains appId (L "TIDAL") ->
  TryGetMediaPropertiesAsync session = inr mp ->
  title (candidate mp) <> [] \/ artist (candidate mp) <> [] ->
  thumbnail_error os mp = None ->
  exists track,
    title track = title (candidate mp) /\ artist track = artist (candidate mp) /\
    In (pipeline (UpdateRichPresence (activity_of os track)))
       (seen (CurrentSessionChanged undisturbed os (Some session) sh)) /\
    g_lastTrackProcessed (globals (shell (CurrentSessionChanged undisturbed os (Some session) sh)))
      = track /\
    g_currentSession (globals (shell (CurrentSessionChanged undisturbed os (Some session) sh)))
      = Some session /\
    handler_on (shell (CurrentSessionChanged undisturbed os (Some session) sh)) = Some session.
Proof.
  intros Hp Hid Hin Hfetch Hname He.
  destruct (CurrentSessionChanged_run os (Some session) sh)
    as (sh1 & Hgl & Hh & before & -> & _).
  unfold run_parseTrack. cbn [seen shell globals handler_on set_globals].
  rewrite Hgl, Hh.
  set (st1 := set_currentSession _ _).
  assert (Hg1 : passes_guard false st1) by by right.
  assert (Ht1 : target_session st1 (inr mp)) by by exists session, appId.
  assert (Hf1 : fresh false st1 mp).
  { right. intros [H1 H2]. simpl in H1, H2. destruct Hname as [H|H]; by apply H. }
  destruct (parseTrack_reports os false st1 mp Hg1 Ht1 Hf1 He)
    as (track & fs & evs & -> & Htitle & Hartist).
  exists track. split_and!; try done.
  apply in_app_iff. right. apply in_map_pipeline.
  unfold guarded. cbn [emitted]. right. rewrite !in_app_iff. left. right. by left.
Qed.

(** X19.  A change of session that arrives while a run is in flight empties
    the cache and replaces the session at once, under that run, and leaves
    the flag and the presence alone.  Whether the handler's own run is
    turned away is decided by the flag as its wait leaves it: if the flag is
    still set then, the run is turned away at the guard, and the handler
    ends with the program as the wait left it, having made no presence
    call; if the run in flight has ended during the wait and the flag is
    clear, the handler's run gets past the guard. *)
Theorem session_change_in_flight elapse os next sh :
  g_isParsing (globals sh) = true ->
  let changed := session_changed next sh in
  let waited := elapse changed.1 in
  let handled := CurrentSessionChanged elapse os next sh in
  (g_lastTrackProcessed (globals changed.1) = no_track /\
   g_currentSession (globals changed.1) = next /\
   g_isParsing (globals changed.1) = true /\
   richPresence (globals changed.1) = richPresence (globals sh) /\
   existsb is_shell_presence_call changed.2 = false) /\
  (g_isParsing (globals waited.1) = true ->
   ended handled = CoReturn tt /\
   shell handled = waited.1 /\
   seen handled
     = changed.2 ++ waited.2 ++ [resume_after 300; pipeline busy_line]) /\
  (g_isParsing (globals waited.1) = false ->
   exists mid,
     seen handled
       = changed.2 ++ waited.2 ++ resume_after 300
         :: pipeline (isParsing_write true) :: map pipeline mid
         ++ [pipeline (isParsing_write false)] /\
     existsb is_flag_write mid = false /\
     g_isParsing (globals (shell handled)) = false).
Proof.
  intros Hp changed waited handled.
  destruct (session_changed_spec next sh) as (Hgl & Hh & Hq).
  split_and!.
  - subst changed. by rewrite Hgl.
  - subst changed. by rewrite Hgl.
  - subst changed. by rewrite Hgl.
  - subst changed. by rewrite Hgl.
  - done.
  - intros Hw. subst handled. unfold CurrentSessionChanged, run_parseTrack.
    fold changed. fold waited. cbn [ended shell seen].
    rewrite parseTrack_busy by done. cbn [outcome final emitted map].
    split_and!; [done | by destruct waited.1 | by rewrite <- !app_assoc].
  - intros Hw. subst handled. unfold CurrentSessionChanged, run_parseTrack.
    fold changed. fold waited. cbn [ended shell seen].
    destruct (parseTrack_guarded os false (globals waited.1)) as (st' & mid & -> & Hmid);
      [by right|].
    exists mid. unfold guarded. cbn [final emitted globals set_globals].
    split_and!; [|done|done].
    rewrite <- !app_assoc. cbn [app map]. by rewrite map_app.
Qed.

(** X20.  A change to a session of the target application whose track has
    neither title nor artist is taken for a duplicate of the empty cache:
    no presence call is made, so the presence of the session before stays
    shown. *)
Theorem session_change_unnamed os session appId mp sh :
  g_isParsing (globals sh) = false ->
  SourceAppUserModelId session = inr appId -> contains appId (L "TIDAL") ->
  TryGetMediaPropertiesAsync session = inr mp ->
  title (candidate mp) = [] -> artist (candidate mp) = [] ->
  existsb is_shell_presence_call
    (seen (CurrentSessionChanged undisturbed os (Some session) sh)) = false /\
  richPresence (globals (shell (CurrentSessionChanged undisturbed os (Some session) sh)))
    = richPresence (globals sh) /\
  g_lastTrackProcessed (globals (shell (CurrentSessionChanged undisturbed os (Some session) sh)))
    = no_track.
Proof.
  intros Hp Hid Hin Hfetch Htitle Hartist.
  destruct (CurrentSessionChanged_run os (Some session) sh)
    as (sh1 & Hgl & Hh & before & -> & Hb).
  unfold run_parseTrack. cbn [seen shell globals set_globals]. rewrite Hgl.
  set (st1 := set_currentSession _ _).
  assert (Hg1 : g_isParsing st1 = false) by done.
  assert (Ht1 : target_session st1 (inr mp)) by by exists session, appId.
  assert (Hd1 : duplicate st1 mp) by by split.
  rewrite (parseTrack_duplicate _ _ _ Hg1 Ht1 Hd1).
  split_and!; try done. rewrite existsb_app, Hb. done.
Qed.

(** X21.  The handler of [MediaPropertiesChanged] follows the session: if it
    is registered on the current session and on no other, it is so again
    after a change of session, after a change of media properties, and
    after a command of the tray menu. *)
Theorem subscription_follows_session os next answers sh :
  subscribed sh ->
  subscribed (shell (CurrentSessionChanged undisturbed os next sh)) /\
  handler_on (shell (CurrentSessionChanged undisturbed os next sh)) = next /\
  subscribed (shell (MediaPropertiesChanged undisturbed os sh)) /\
  subscribed (ShowTrayMenu answers sh).1.
Proof.
  unfold subscribed. intros Hs. split_and!.
  - destruct (CurrentSessionChanged_run os next sh)
      as (sh1 & Hgl & Hh & before & -> & _).
    unfold run_parseTrack. cbn [shell handler_on globals set_globals].
    rewrite parseTrack_keeps_session, Hgl, Hh. cbn [g_currentSession set_currentSession].
    destruct next; [done|]. rewrite Hs. by destruct (g_currentSession _).
  - destruct (CurrentSessionChanged_run os next sh)
      as (sh1 & Hgl & Hh & before & -> & _).
    unfold run_parseTrack. cbn [shell handler_on globals set_globals].
    rewrite Hh. destruct next; [done|]. rewrite Hs. by destruct (g_currentSession _).
  - unfold MediaPropertiesChanged, run_parseTrack.
    cbn [shell handler_on globals set_globals].
    by rewrite parseTrack_keeps_session.
  - unfold ShowTrayMenu, run_parseTrack.
    repeat case_bool_decide; cbn [shell fst handler_on globals set_globals];
      [by rewrite parseTrack_keeps_session | done | | done].
    by destruct (g_hConsoleWnd sh).
Qed.

(* ===================================================================== *)
(** ** Properties of the tray, the window procedure and [wWinMain] *)
(* ===================================================================== *)

(** X22.  "Show/Hide Console" chosen twice leaves the program as it was,
    the console being brought to the front exactly once on the way; without
    a console window the command does nothing. *)
Theorem console_toggle_twice first second sh :
  TrackPopupMenu first = 3 -> TrackPopupMenu second = 3 ->
  (ShowTrayMenu second (ShowTrayMenu first sh).1).1 = sh /\
  (ShowTrayMenu first sh).2 ++ (ShowTrayMenu second (ShowTrayMenu first sh).1).2
    = match g_hConsoleWnd sh with
      | Some _ => [SetForegroundWindow_console]
      | None => []
      end.
Proof.
  intros H1 H2. unfold ShowTrayMenu. rewrite H1, H2.
  destruct sh as [gl h w t [[]|] q]; done.
Qed.

(** X23.  The two ways out, "Exit" in the tray menu and WM_DESTROY, do the
    same: the tray icon is removed and the quit is posted with code 0; the
    pipeline's globals, the presence among them, are not touched, and 0 is
    returned. *)
Theorem both_exits_leave hwnd wParam lParam answers sh :
  TrackPopupMenu answers = 2 ->
  WndProc hwnd (Win32.WM_APP + 1) wParam Win32.WM_RBUTTONUP answers sh
    = WndProc hwnd Win32.WM_DESTROY wParam lParam answers sh /\
  (WndProc hwnd Win32.WM_DESTROY wParam lParam answers sh).1 = 0 /\
  tray_icon (WndProc hwnd Win32.WM_DESTROY wParam lParam answers sh).2.1 = false /\
  quit_posted (WndProc hwnd Win32.WM_DESTROY wParam lParam answers sh).2.1 = Some 0 /\
  globals (WndProc hwnd Win32.WM_DESTROY wParam lParam answers sh).2.1 = globals sh /\
  (WndProc hwnd Win32.WM_DESTROY wParam lParam answers sh).2.2 = [].
Proof.
  intros H. unfold WndProc, ShowTrayMenu. rewrite H. done.
Qed.

(** X24.  The window procedure changes the program only on a right click on
    the tray icon and on WM_DESTROY: any other message leaves the program
    as it is; what is not a tray message or WM_DESTROY goes to the default
    handling, whose result is returned. *)
Theorem WndProc_elsewhere hwnd msg wParam lParam answers sh :
  ((WndProc hwnd msg wParam lParam answers sh).2.1 <> sh ->
   (msg = Win32.WM_APP + 1 /\ lParam = Win32.WM_RBUTTONUP)
   \/ msg = Win32.WM_DESTROY) /\
  (msg <> Win32.WM_APP + 1 -> msg <> Win32.WM_DESTROY ->
   WndProc hwnd msg wParam lParam answers sh = (DefWindowProc answers, (sh, []))) /\
  (msg = Win32.WM_APP + 1 \/ msg = Win32.WM_DESTROY ->
   (WndProc hwnd msg wParam lParam answers sh).1 = 0).
Proof.
  unfold WndProc. split_and!.
  - repeat case_bool_decide; simpl; intros G; try done; tauto.
  - intros H1 H2. by rewrite !bool_decide_eq_false_2.
  - intros [-> | ->]; done.
Qed.

(** Of one queue, what comes after WM_QUIT is not looked at. *)
Lemma peek_messages_quit before quit answers ignored sh :
  Forall (fun m => Win32.message m.1 <> Win32.WM_QUIT) before ->
  Win32.message quit = Win32.WM_QUIT ->
  peek_messages (before ++ (quit, answers) :: ignored) sh
    = (Some quit, (peek_messages before sh).2).
Proof.
  intros Hb Hq. revert sh.
  induction Hb as [|[m a] before Hm _ IH]; intros sh.
  - simpl. by rewrite bool_decide_eq_true_2.
  - cbn [app peek_messages]. simpl in Hm. rewrite bool_decide_eq_false_2 by done.
    cbv zeta. rewrite IH. cbn [fst snd].
    by destruct (peek_messages before _) as [? [? ?]].
Qed.

(** X25.  Messages queued behind WM_QUIT are never dispatched: the inner
    loop ends at the first WM_QUIT of the queue, having handled exactly the
    messages before it. *)
Theorem messages_after_quit_dropped before quit answers ignored sh :
  Forall (fun m => Win32.message m.1 <> Win32.WM_QUIT) before ->
  Win32.message quit = Win32.WM_QUIT ->
  (peek_messages (before ++ (quit, answers) :: ignored) sh).1 = Some quit /\
  (peek_messages (before ++ (quit, answers) :: ignored) sh).2
    = (peek_messages before sh).2 /\
  (peek_messages before sh).1 = None.
Proof.
  intros Hb Hq. rewrite (peek_messages_quit _ _ _ _ _ Hb Hq).
  split_and!; try done. clear Hq. revert sh.
  induction Hb as [|[m a] before Hm _ IH]; intros sh; [done|].
  cbn [peek_messages]. simpl in Hm. rewrite bool_decide_eq_false_2 by done.
  cbv zeta. cbn [fst]. apply IH.
Qed.

Lemma peek_messages_Some queue sh quit :
  (peek_messages queue sh).1 = Some quit ->
  In quit (map fst queue) /\ Win32.message quit = Win32.WM_QUIT.
Proof.
  revert sh. induction queue as [|[m a] queue IH]; intros sh; [done|].
  cbn [peek_messages]. case_bool_decide as Hm.
  - intros [= <-]. split; [by left | done].
  - cbv zeta. cbn [fst]. intros H. apply IH in H as [H1 H2].
    split; [by right | done].
Qed.

Lemma to_int_range w : - 2 ^ 31 <= Win32.to_int w < 2 ^ 31.
Proof.
  unfold Win32.to_int.
  pose proof (Z.mod_pos_bound (w + 2 ^ 31) (2 ^ 32)). lia.
Qed.

(** At the end of the loop the presence is cleared. *)
Lemma loop_ends_cleared_aux ticks sh code sh' evs :
  message_loop ticks sh = Some (code, (sh', evs)) ->
  richPresence (globals sh') = None.
Proof.
  revert sh code sh' evs.
  induction ticks as [|queue ticks IH]; intros sh code sh' evs; [done|].
  cbn [message_loop]. cbv zeta.
  destruct (peek_messages queue sh) as [[quit|] [sh1 evs1]]; cbn [fst snd].
  - by intros [= <- <- <-].
  - destruct (message_loop ticks sh1) as [[code' [sh2 evs2]]|] eqn:Hloop; [|done].
    intros [= <- <- <-]. by apply IH in Hloop.
Qed.

(** X26.  The message loop ends only on a WM_QUIT, and [wWinMain] then
    clears the presence before it returns: at the end no presence is shown,
    and the value returned is the [wParam] of that WM_QUIT as an [int]. *)
Theorem loop_ends_cleared ticks sh code sh' evs :
  message_loop ticks sh = Some (code, (sh', evs)) ->
  richPresence (globals sh') = None /\
  In (pipeline ClearRichPresence) evs /\
  exists quit,
    In quit (map fst (concat ticks)) /\
    Win32.message quit = Win32.WM_QUIT /\
    code = Win32.to_int (Win32.wParam quit) /\
    - 2 ^ 31 <= code < 2 ^ 31.
Proof.
  revert sh code sh' evs.
  induction ticks as [|queue ticks IH]; intros sh code sh' evs; [done|].
  cbn [message_loop]. cbv zeta.
  destruct (peek_messages queue sh) as [[quit|] [sh1 evs1]] eqn:Hpeek; cbn [fst snd].
  - intros [= <- <- <-]. split_and!.
    + done.
    + apply in_app_iff. right. simpl. by left.
    + exists quit.
      destruct (peek_messages_Some queue sh quit) as [Hin Hq]; [by rewrite Hpeek|].
      pose proof (to_int_range (Win32.wParam quit)).
      split_and!; try done; try lia.
      simpl. rewrite map_app. apply in_app_iff. by left.
  - destruct (message_loop ticks sh1) as [[code' [sh2 evs2]]|] eqn:Hloop; [|done].
    intros [= <- <- <-].
    destruct (IH _ _ _ _ Hloop) as (Hp & Hc & quit & Hin & Hq & Hcode & Hrange).
    split_and!; try done.
    + apply in_app_iff. right. right. by right.
    + exists quit. split_and!; try done; try lia.
      simpl. rewrite map_app. apply in_app_iff. by right.
Qed.

(** X27.  Start-up ends early exactly when the hidden window cannot be
    created or a call on the media subsystem throws inside the [try] block:
    the request for the session manager, the registration of the handler of
    session changes, the query for the current session, or, with a session
    at hand, the registration of the handler of its media properties.  It
    then returns -1.  The initial track analysis can never make it fail. *)
Theorem start_up_fails_only_on_setup boot :
  ((exists code left evs, start_up boot = (inl (code, left), evs)) <->
   CreateWindowExW boot = None \/ (exists ex, RequestAsync boot = inl ex)
   \/ (exists ex, add_CurrentSessionChanged boot = inl ex)
   \/ (exists ex, GetCurrentSession boot = inl ex)
   \/ ((exists session, GetCurrentSession boot = inr (Some session))
       /\ exists ex, add_MediaPropertiesChanged boot = inl ex)) /\
  (forall code left evs, start_up boot = (inl (code, left), evs) -> code = -1).
Proof.
  unfold start_up.
  destruct (CreateWindowExW boot) as [hWnd|].
  2: { split; [split; [by left | by eexists _, _, _]|]. by intros ? ? ? [= <- _ _]. }
  destruct (RequestAsync boot) as [ex|[]].
  { split; [split; [right; left; by eexists | by eexists _, _, _]|].
    by intros ? ? ? [= <- _ _]. }
  destruct (add_CurrentSessionChanged boot) as [ex|[]].
  { split; [split; [right; right; left; by eexists | by eexists _, _, _]|].
    by intros ? ? ? [= <- _ _]. }
  destruct (GetCurrentSession boot) as [ex|[session|]].
  { split; [split; [do 3 right; left; by eexists | by eexists _, _, _]|].
    by intros ? ? ? [= <- _ _]. }
  - cbv zeta. destruct (add_MediaPropertiesChanged boot) as [ex|[]].
    { split; [split; [|by eexists _, _, _]|by intros ? ? ? [= <- _ _]].
      intros _. do 4 right. split; by eexists. }
    unfold run_parseTrack. cbn [ended shell seen].
    rewrite parseTrack_returns.
    split; [|done]. split; [by intros (? & ? & ? & ?)|].
    intros [?|[[? ?]|[[? ?]|[[? ?]|[_ [? ?]]]]]]; done.
  - split; [|done]. split; [by intros (? & ? & ? & ?)|].
    intros [?|[[? ?]|[[? ?]|[[? ?]|[[? ?] _]]]]]; done.
Qed.

(** X28.  When a call on the media subsystem throws at start-up, [wWinMain]
    shows the error dialog and returns -1 without entering its loop,
    whatever messages wait; it makes no presence call, and the tray icon it
    added is not removed. *)
Theorem fatal_start_up boot hWnd ex ticks :
  CreateWindowExW boot = Some hWnd ->
  RequestAsync boot = inl ex
  \/ (RequestAsync boot = inr tt /\ add_CurrentSessionChanged boot = inl ex)
  \/ (RequestAsync boot = inr tt /\ add_CurrentSessionChanged boot = inr tt
      /\ GetCurrentSession boot = inl ex)
  \/ (RequestAsync boot = inr tt /\ add_CurrentSessionChanged boot = inr tt
      /\ (exists session, GetCurrentSession boot = inr (Some session))
      /\ add_MediaPropertiesChanged boot = inl ex) ->
  exists sh evs,
    wWinMain boot ticks = Some (-1, (Some sh, evs)) /\
    tray_icon sh = true /\
    In (MessageBoxW_call (c_str (fatal_text ex)) (L "TIDAL RPC Error")) evs /\
    existsb is_shell_presence_call evs = false /\
    Forall (fun e => e <> RunCallbacks_call) evs.
Proof.
  intros Hw H.
  unfold wWinMain, start_up, CreateDebugConsole, fatal,
    RegisterMediaPropertiesChangedHandler.
  rewrite Hw.
  destruct H as [-> | [[-> ->] | [(-> & -> & ->) | (-> & -> & [session ->] & ->)]]];
    eexists _, _; (split; [reflexivity|]);
    destruct (AllocConsole boot); simpl; split_and!; try done;
    try (right; by left); try (right; right; by left);
    try (right; right; right; by left);
    repeat constructor; discriminate.
Qed.

(** X29.  Whenever [wWinMain] returns after its window was created, no
    presence is left shown. *)
Theorem program_ends_without_presence boot ticks code sh evs :
  wWinMain boot ticks = Some (code, (Some sh, evs)) ->
  richPresence (globals sh) = None.
Proof.
  unfold wWinMain. destruct (start_up boot) as [[[code0 left]|sh0] evs0] eqn:Hs.
  - intros [= <- -> <-]. revert Hs. unfold start_up.
    destruct (CreateWindowExW boot) as [hWnd|]; [|discriminate].
    destruct (RequestAsync boot) as [ex|[]]; [by intros [= _ <- _]|].
    destruct (add_CurrentSessionChanged boot) as [ex|[]]; [by intros [= _ <- _]|].
    destruct (GetCurrentSession boot) as [ex|[session|]];
      [by intros [= _ <- _] | | discriminate].
    cbv zeta.
    destruct (add_MediaPropertiesChanged boot) as [ex|[]]; [by intros [= _ <- _]|].
    unfold run_parseTrack. cbn [ended shell seen].
    by rewrite parseTrack_returns.
  - destruct (message_loop ticks sh0) as [[code' [sh1 evs1]]|] eqn:Hloop; [|done].
    intros [= <- <- <-]. by apply loop_ends_cleared_aux in Hloop.
Qed.

(* ===================================================================== *)
(** ** The further properties at work in the concrete world *)
(* ===================================================================== *)

(** X3 at work: curl.exe prints the URL and a newline. *)
Lemma publisher_success_witness :
  outcome (UploadCoverArtAsync Scenario.os_ok (Scenario.bytes_of "PNG")
             (Scenario.idle None))
    = CoReturn (L "https://0x0.st/abc.png").
Proof.
  destruct (publisher_success Scenario.os_ok (Scenario.bytes_of "PNG")
              (Scenario.idle None) (L "C:\Temp")
              ["https://0x0.st/abc.png"%string;
               String (Ascii.ascii_of_nat 10) EmptyString]) as (H & _).
  - repeat split; by vm_compute.
  - rewrite H. by vm_compute.
Defined.

(** X4 at work: the pipe cannot be created. *)
Lemma publisher_setup_failure_witness :
  existsb is_spawn
    (emitted (UploadCoverArtAsync Scenario.os_no_pipe [] (Scenario.idle None)))
    = false.
Proof.
  apply (publisher_setup_failure Scenario.os_no_pipe [] (Scenario.idle None)).
  right. left. reflexivity.
Defined.

(** X5 at work: curl.exe is not found. *)
Lemma publisher_spawn_failure_witness :
  exists uploadedUrl,
    outcome (UploadCoverArtAsync Scenario.os_no_curl [] (Scenario.idle None))
      = CoReturn uploadedUrl /\
    accepted uploadedUrl = false.
Proof.
  destruct (publisher_spawn_failure Scenario.os_no_curl [] (Scenario.idle None)
              (L "C:\Temp") 2) as (u & Hu & _ & Ha).
  - repeat split; by vm_compute.
  - reflexivity.
  - by exists u.
Defined.

(** X7 at work. *)
Lemma expiry_is_seven_minutes_witness :
  command_of Scenario.os_ok (L "C:\Temp\x.png") =
    L "curl.exe -s -F " ++ dquote ++ L "file=@C:\Temp\x.png" ++ dquote ++
    L " -F " ++ dquote ++ L "expires=1700000420000" ++ dquote ++
    L " http://0x0.st".
Proof.
  rewrite (expiry_is_seven_minutes Scenario.os_ok (L "C:\Temp\x.png")).
  - by vm_compute.
  - by vm_compute.
  - by vm_compute.
Defined.

(** X8 at work: "Song A" has no thumbnail. *)
Lemma no_artwork_reported_witness :
  g_lastTrackProcessed
    (final (parseTrack Scenario.os_ok false
              (Scenario.idle (Some (Scenario.tidal (inr (Scenario.song_a None)))))))
    = candidate (Scenario.song_a None).
Proof.
  eapply (no_artwork_reported Scenario.os_ok false
            (Scenario.idle (Some (Scenario.tidal (inr (Scenario.song_a None)))))
            (Scenario.song_a None)).
  - apply idle_passes.
  - apply tidal_is_target.
  - apply song_a_is_new.
  - by apply no_thumbnail.
Defined.

(** X9 at work: the thumbnail of "Song A" cannot be opened. *)
Lemma thumbnail_failure_aborts_witness :
  g_lastTrackProcessed (final (parseTrack Scenario.os_ok false Scenario.unreadable))
    = no_track.
Proof.
  apply (thumbnail_failure_aborts Scenario.os_ok false Scenario.unreadable
           (Scenario.song_a (Some Scenario.broken_thumbnail)) Scenario.E_FAIL).
  - apply idle_passes.
  - apply tidal_is_target.
  - apply song_a_is_new.
  - reflexivity.
Defined.

(** X10 at work: the application id of the session cannot be read. *)
Lemma appId_failure_contained_witness :
  g_lastTrackProcessed
    (final (parseTrack Scenario.os_ok false (Scenario.idle (Some Stage.sealed))))
    = no_track.
Proof.
  apply (appId_failure_contained Scenario.os_ok false
           (Scenario.idle (Some Stage.sealed)) Stage.sealed Scenario.E_FAIL).
  - apply idle_passes.
  - reflexivity.
  - reflexivity.
Defined.

(** X14 at work: "Song A" is announced twice. *)
Lemma repeat_is_duplicate_witness :
  final (parseTrack Scenario.os_refused false
           (final (parseTrack Scenario.os_ok false Scenario.playing)))
    = final (parseTrack Scenario.os_ok false Scenario.playing).
Proof.
  apply (repeat_is_duplicate Scenario.os_ok false Scenario.playing
           (Scenario.song_a (Some Scenario.png)) Scenario.os_refused).
  - apply idle_passes.
  - apply tidal_is_target.
  - apply song_a_is_new.
  - by vm_compute.
Defined.

(** X15 at work: the copy of the thumbnail fails once, then succeeds. *)
Lemma failed_run_is_retried_witness :
  existsb is_presence_update
    (emitted (parseTrack Scenario.os_ok false
                (final (parseTrack Stage.os_copy_fails false Scenario.playing))))
    = true.
Proof.
  apply (failed_run_is_retried Stage.os_copy_fails false Scenario.playing
           (Scenario.song_a (Some Scenario.png)) Scenario.E_FAIL Scenario.os_ok).
  - apply idle_passes.
  - apply tidal_is_target.
  - apply song_a_is_new.
  - by vm_compute.
  - left. by vm_compute.
  - by vm_compute.
Defined.

(** X18 at work: the session changes to one that plays the track already
    reported. *)
Lemma session_change_reports_witness :
  exists track,
    title track = L "Song A" /\
    In (pipeline (UpdateRichPresence (activity_of Scenario.os_ok track)))
       (seen (CurrentSessionChanged undisturbed Scenario.os_ok
                (Some (Scenario.tidal (inr (Scenario.song_a None))))
                (Stage.shell_of Scenario.reported))).
Proof.
  destruct (session_change_reports Scenario.os_ok
              (Scenario.tidal (inr (Scenario.song_a None))) (L "TIDAL.exe!App")
              (Scenario.song_a None) (Stage.shell_of Scenario.reported))
    as (track & Ht & _ & Hin & _).
  - reflexivity.
  - reflexivity.
  - by exists [], (L ".exe!App").
  - reflexivity.
  - left. by vm_compute.
  - reflexivity.
  - by exists track.
Defined.

(** X19 at work: the session changes while a run is in flight, and that
    run ends before the handler has finished waiting. *)
Lemma session_change_in_flight_witness :
  exists mid,
    seen (CurrentSessionChanged Stage.run_ends Scenario.os_ok
            (Some (Scenario.tidal (inr (Scenario.song_a None))))
            (Stage.shell_of Scenario.playing_in_flight))
      = [pipeline (cout "Current media session changed.");
         pipeline (cout "Registering MediaPropertiesChanged event handler.");
         pipeline (isParsing_write false);
         resume_after 300; pipeline (isParsing_write true)]
        ++ map pipeline mid ++ [pipeline (isParsing_write false)].
Proof.
  destruct (session_change_in_flight Stage.run_ends Scenario.os_ok
              (Some (Scenario.tidal (inr (Scenario.song_a None))))
              (Stage.shell_of Scenario.playing_in_flight))
    as (_ & _ & H).
  - reflexivity.
  - destruct H as (mid & H & _); [reflexivity|]. by exists mid.
Defined.

(** X20 at work: the new session has not named its track yet. *)
Lemma session_change_unnamed_witness :
  richPresence
    (globals (shell (CurrentSessionChanged undisturbed Scenario.os_ok
                       (Some (Scenario.tidal (inr Stage.unnamed)))
                       (Stage.shell_of Scenario.reported))))
    = richPresence Scenario.reported.
Proof.
  apply (session_change_unnamed Scenario.os_ok
           (Scenario.tidal (inr Stage.unnamed)) (L "TIDAL.exe!App")
           Stage.unnamed (Stage.shell_of Scenario.reported)).
  - reflexivity.
  - reflexivity.
  - by exists [], (L ".exe!App").
  - reflexivity.
  - reflexivity.
  - reflexivity.
Defined.

(** X21 at work. *)
Lemma subscription_follows_session_witness :
  handler_on
    (shell (CurrentSessionChanged undisturbed Scenario.os_ok (Some Scenario.spotify)
              (Stage.shell_of Scenario.reported)))
    = Some Scenario.spotify.
Proof.
  apply (subscription_follows_session Scenario.os_ok (Some Scenario.spotify)
           (Stage.choose 0) (Stage.shell_of Scenario.reported)).
  reflexivity.
Defined.

(** X22 at work. *)
Lemma console_toggle_twice_witness :
  (ShowTrayMenu (Stage.choose 3)
     (ShowTrayMenu (Stage.choose 3) (Stage.shell_of Scenario.reported)).1).1
    = Stage.shell_of Scenario.reported.
Proof.
  apply (console_toggle_twice (Stage.choose 3) (Stage.choose 3)
           (Stage.shell_of Scenario.reported)); reflexivity.
Defined.

(** X23 at work. *)
Lemma both_exits_leave_witness :
  quit_posted
    (WndProc 1 Win32.WM_DESTROY 0 0 (Stage.choose 2)
       (Stage.shell_of Scenario.reported)).2.1 = Some 0.
Proof.
  apply (both_exits_leave 1 0 0 (Stage.choose 2) (Stage.shell_of Scenario.reported)).
  reflexivity.
Defined.

(** X25 at work: a double click before WM_QUIT is answered, one after it is
    not. *)
Lemma messages_after_quit_dropped_witness :
  (peek_messages
     [(Stage.double_click, Stage.choose 0); (Stage.quit_message, Stage.choose 0);
      (Stage.double_click, Stage.choose 0)]
     (Stage.shell_of Scenario.reported)).2.2
    = [MessageBoxW_call (L "TIDAL Rich Presence is running.") (L "TIDAL RPC")].
Proof.
  destruct (messages_after_quit_dropped
              [(Stage.double_click, Stage.choose 0)] Stage.quit_message
              (Stage.choose 0) [(Stage.double_click, Stage.choose 0)]
              (Stage.shell_of Scenario.reported)) as (_ & H & _).
  - repeat constructor. by vm_compute.
  - reflexivity.
  - cbn [app] in H. rewrite H. by vm_compute.
Defined.

(** X26 at work: WM_QUIT with [wParam] 7 arrives in the second turn. *)
Lemma loop_ends_cleared_witness :
  exists code sh evs,
    message_loop [[]; [(Stage.quit_message, Stage.choose 0)]]
      (Stage.shell_of Scenario.reported) = Some (code, (sh, evs)) /\
    richPresence (globals sh) = None /\ code = 7.
Proof.
  eexists _, _, _. split; [by vm_compute|].
  split; [|reflexivity].
  eapply (loop_ends_cleared [[]; [(Stage.quit_message, Stage.choose 0)]]
            (Stage.shell_of Scenario.reported)).
  by vm_compute.
Defined.

(** X28 at work. *)
Lemma fatal_start_up_witness :
  exists sh evs,
    wWinMain Stage.boot_fatal [[(Stage.quit_message, Stage.choose 0)]]
      = Some (-1, (Some sh, evs)) /\
    tray_icon sh = true.
Proof.
  destruct (fatal_start_up Stage.boot_fatal 1 Scenario.E_FAIL
              [[(Stage.quit_message, Stage.choose 0)]]) as (sh & evs & H & Ht & _).
  - reflexivity.
  - left. reflexivity.
  - by exists sh, evs.
Defined.

(** X29 at work: the program starts with "Song A" playing and is quit. *)
Lemma program_ends_without_presence_witness :
  exists code sh evs,
    wWinMain Stage.boot_playing [[(Stage.quit_message, Stage.choose 0)]]
      = Some (code, (Some sh, evs)) /\
    richPresence (globals sh) = None.
Proof.
  eexists _, _, _. split; [by vm_compute|].
  eapply (program_ends_without_presence Stage.boot_playing
            [[(Stage.quit_message, Stage.choose 0)]]).
  by vm_compute.
Defined.

(** At the largest count of ticks the sum of line 214 wraps around, and the
    expiry handed to curl.exe is negative. *)
Example expiry_wraps_around :
  command_of Stage.os_last_tick (L "x.png") =
    L "curl.exe -s -F " ++ dquote ++ L "file=@x.png" ++ dquote ++
    L " -F " ++ dquote ++ L "expires=-922337203265477" ++ dquote ++
    L " http://0x0.st".
Proof. by vm_compute. Qed.

(** Of the buffer of the temporary path only what precedes its NUL enters
    the name of the scratch file. *)
Example temp_path_ends_at_nul :
  scratch_path Scenario.os_ok Stage.stale_buffer
    = L "C:\T\TIDALRPC_17000000000000000.png".
Proof. by vm_compute. Qed.

(** The run in flight ends while the handler of a session change waits:
    the handler's run is not turned away, and reports the track of the new
    session. *)
Example session_change_after_run_ended :
  In (pipeline (UpdateRichPresence
                  (activity_of Scenario.os_ok (candidate (Scenario.song_a None)))))
     (seen (CurrentSessionChanged Stage.run_ends Scenario.os_ok
              (Some (Scenario.tidal (inr (Scenario.song_a None))))
              (Stage.shell_of Scenario.playing_in_flight))).
Proof. vm_compute. do 6 right. by left. Qed.
